(** * go-claude-hook: the hook dispatch host, embedded in Rocq

    A shallow embedding of [types/types.go], [types/plugin.go] and the
    dispatch part of [main.go], followed by the properties of the
    dispatch protocol.

    Conventions of the embedding.
    - A Go [string] is a sequence of bytes: Rocq's [string].
    - A pointer [*T] that the program only tests against [nil] and reads
      is an [option T].
    - [map[string]any] is a [gmap string json]; a [nil] map reads like the
      empty one.
    - [encoding/json] writes and reads JSON documents.  The bytes
      [json.Marshal] produces for a verdict are represented by the
      document being written ([json]); [encoding_json.text] gives the
      bytes and [encoding_json.decoded] the value they read back as.
    - Standard output, standard error, [os.Exit] and a Go panic are made
      explicit: a computation returns the list of its observable events
      and how control left it ([proc]). *)

From Equations Require Import Equations.
From Stdlib Require Import ZArith Ascii String.
From stdpp Require Import base option list gmap strings.

Local Open Scope string_scope.
Local Open Scope list_scope.
Local Open Scope Z_scope.

(** ** JSON documents *)

#[local] Set Warnings "-register-all".

Inductive json : Type :=
| JNull
| JBool (b : bool)
| JNumber (literal : string)
| JString (s : string)
| JArray (items : list json)
| JObject (members : list (string * json)).

(** A Go [error] value is represented by its [Error()] text; [nil] is
    [None]. *)
Definition error : Type := string.

(** The line feed written by ["\n"] in the Go source. *)
Definition LF : string := String "010"%char "".

(** [strings.Join]. *)
Definition strings_Join (elems : list string) (sep : string) : string :=
  match elems with
  | [] => ""
  | e :: es => fold_left (fun acc x => acc +:+ sep +:+ x) es e
  end.

Module utf8.

(** [unicode/utf8]: how the lead byte of a sequence constrains it.
    [Lead n lo hi]: a sequence of [n] bytes whose second byte lies in
    [lo..hi]. *)
Inductive first_byte :=
| Ascii
| Invalid
| Lead (size : nat) (lo hi : N).

Definition first (c : ascii) : first_byte :=
  let b := N_of_ascii c in
  if (b <? 128)%N then Ascii
  else if (b <? 194)%N then Invalid
  else if (b <? 224)%N then Lead 2 128 191
  else if (b =? 224)%N then Lead 3 160 191
  else if (b =? 237)%N then Lead 3 128 159
  else if (b <? 240)%N then Lead 3 128 191
  else if (b =? 240)%N then Lead 4 144 191
  else if (b <? 244)%N then Lead 4 128 191
  else if (b =? 244)%N then Lead 4 128 143
  else Invalid.

Definition within (lo hi : N) (c : ascii) : bool :=
  let b := N_of_ascii c in (lo <=? b)%N && (b <=? hi)%N.

(** A continuation byte, [0x80..0xBF]. *)
Definition cont (c : ascii) : bool := within 128 191 c.

(** U+FFFD, the replacement rune, in UTF-8. *)
Definition RuneError : string := String "239"%char (String "191"%char (String "189"%char "")).

(** A walk over a string rune by rune, as a loop around
    [utf8.DecodeRuneInString] makes it: [one c] for an ASCII byte,
    [bad] for a byte at which the decoder reports [(RuneError, 1)],
    [seq bytes] for a well-formed sequence of two to four bytes. *)
Section Runes.
Context {B : Type}.
Context (one : ascii -> B -> B) (bad : B -> B) (seq : string -> B -> B) (done : B).

Fixpoint runes (s : string) : B :=
  match s with
  | EmptyString => done
  | String c0 t0 =>
      match first c0 with
      | Ascii => one c0 (runes t0)
      | Invalid => bad (runes t0)
      | Lead size lo hi =>
          match t0 with
          | String c1 t1 =>
              if negb (within lo hi c1) then bad (runes t0)
              else if (size <=? 2)%nat
              then seq (String c0 (String c1 "")) (runes t1)
              else
                match t1 with
                | String c2 t2 =>
                    if negb (cont c2) then bad (runes t0)
                    else if (size <=? 3)%nat
                    then seq (String c0 (String c1 (String c2 ""))) (runes t2)
                    else
                      match t2 with
                      | String c3 t3 =>
                          if negb (cont c3) then bad (runes t0)
                          else seq (String c0 (String c1 (String c2 (String c3 ""))))
                                   (runes t3)
                      | EmptyString => bad (runes t0)
                      end
                | EmptyString => bad (runes t0)
                end
          | EmptyString => bad (runes t0)
          end
      end
  end.
End Runes.

(** What a string becomes when it is written as a JSON string and read
    back: [encoding/json] keeps every well-formed sequence and puts
    U+FFFD in the place of every other byte. *)
Definition toValid : string -> string :=
  runes String (String.append RuneError) String.append "".

(** A string of ASCII bytes only. *)
Fixpoint isASCII (s : string) : bool :=
  match s with
  | EmptyString => true
  | String c t => (N_of_ascii c <? 128)%N && isASCII t
  end.

End utf8.

Module encoding_json.

Definition hex (n : N) : ascii :=
  match String.get (N.to_nat n) "0123456789abcdef" with
  | Some c => c
  | None => "0"%char
  end.

(** [\u00XX] for one byte. *)
Definition u00 (c : ascii) : string :=
  let b := N_of_ascii c in
  "\u00" +:+ String (hex (b / 16)%N) (String (hex (b mod 16)%N) "").

(** The escape of one ASCII byte inside a JSON string (HTML escaping is
    on by default in [json.Marshal]). *)
Definition escape (c : ascii) : string :=
  let b := N_of_ascii c in
  if (b =? 92)%N then "\\"
  else if (b =? 34)%N then String "\"%char (String c "")
  else if (b =? 8)%N then "\b"
  else if (b =? 12)%N then "\f"
  else if (b =? 10)%N then "\n"
  else if (b =? 13)%N then "\r"
  else if (b =? 9)%N then "\t"
  else if (b <? 32)%N || (b =? 60)%N || (b =? 62)%N || (b =? 38)%N then u00 c
  else String c "".

(** U+2028 and U+2029 in UTF-8. *)
Definition LineSeparator : string :=
  String "226"%char (String "128"%char (String "168"%char "")).
Definition ParagraphSeparator : string :=
  String "226"%char (String "128"%char (String "169"%char "")).

(** A JSON string literal, as [appendString] writes it: ASCII escaped, an
    invalid byte written as the escape of U+FFFD, the two separators
    escaped, every other sequence copied. *)
Definition quoted : string -> string :=
  utf8.runes
    (fun c rest => escape c +:+ rest)
    (fun rest => "\ufffd" +:+ rest)
    (fun bytes rest =>
       if String.eqb bytes LineSeparator then "\u2028" +:+ rest
       else if String.eqb bytes ParagraphSeparator then "\u2029" +:+ rest
       else bytes +:+ rest)
    "".

Definition quote (s : string) : string :=
  String "034"%char (quoted s) +:+ String "034"%char "".

(** The compact text [json.Marshal] writes for a document. *)
Fixpoint text (j : json) : string :=
  match j with
  | JNull => "null"
  | JBool true => "true"
  | JBool false => "false"
  | JNumber literal => literal
  | JString s => quote s
  | JArray items => "[" +:+ strings_Join (map text items) "," +:+ "]"
  | JObject members =>
      "{" +:+ strings_Join (map (fun kv => quote kv.1 +:+ ":" +:+ text kv.2) members) "," +:+ "}"
  end.

(** The value a document has once its text is read back: every string
    has been coerced to valid UTF-8 on the way out. *)
Fixpoint decoded (j : json) : json :=
  match j with
  | JString s => JString (utf8.toValid s)
  | JArray items => JArray (map decoded items)
  | JObject members =>
      JObject (map (fun '(k, v) => (utf8.toValid k, decoded v)) members)
  | _ => j
  end.

(** [json.Unmarshal(data, &m)] for [m map[string]any], on bytes that
    [json.Marshal] wrote: [null] leaves the map [nil], an object fills it
    member by member (a repeated key keeps its last value), anything
    else is a type error. *)
Definition Unmarshal_map (data : json) : error + gmap string json :=
  match decoded data with
  | JNull => inr ∅
  | JObject members =>
      inr (fold_left (fun m kv => <[kv.1 := kv.2]> m) members ∅)
  | _ => inl "json: cannot unmarshal into Go value of type map[string]interface {}"
  end.

End encoding_json.

(** ** Observable behaviour of a computation *)

Inductive stream := Stdout | Stderr.

(** The methods of the capability interface [IPlugin]. *)
Inductive method :=
| Initialize_ | Cleanup_ | GetMetadata_
| PreToolUse_ | PostToolUse_ | Notification_ | Stop_ | SubagentStop_.

Inductive event :=
| Fprintf (w : stream) (format : string)
    (* [fmt.Fprintf(w, format)] with no operand: the payload is the format *)
| Print (w : stream) (text : string)
    (* text written as it stands *)
| Invoke (m : method).
    (* a method of an extension is entered *)

(** How control leaves a computation: it returns, the process exits with a
    code ([os.Exit]), or a panic unwinds it. *)
Inductive flow (A : Type) :=
| Return (a : A)
| OsExit (code : Z)
| GoPanic (v : string).
Arguments Return {A} a.
Arguments OsExit {A} code.
Arguments GoPanic {A} v.

Definition proc (A : Type) : Type := list event * flow A.

Definition emit (e : event) : proc unit := ([e], Return tt).
Definition exit {A} (code : Z) : proc A := ([], OsExit code).

#[export] Instance proc_ret : MRet proc := fun A a => ([], Return a).

#[export] Instance proc_bind : MBind proc := fun A B k m =>
  match m with
  | (t, Return a) => let '(t', f) := k a in (t ++ t', f)
  | (t, OsExit code) => (t, OsExit code)
  | (t, GoPanic v) => (t, GoPanic v)
  end.

(** The exit status the operating system sees.  Returning from [main] is
    status 0; the Go runtime ends a panicking program with status 2. *)
Definition status {A} (f : flow A) : Z :=
  match f with
  | Return _ => 0
  | OsExit code => code
  | GoPanic _ => 2
  end.

(** What a call into an extension does: it returns, or it panics. *)
Inductive call (A : Type) :=
| Returned (a : A)
| Panicked (v : string).
Arguments Returned {A} a.
Arguments Panicked {A} v.

Definition invoke {A} (m : method) (c : call A) : proc A :=
  ([Invoke m], match c with Returned a => Return a | Panicked v => GoPanic v end).


(** ** Package [types] *)

Module types.

(** *** types.go *)

Definition ExitCodeSuccess : Z := 0.
Definition ExitCodeBlockingError : Z := 2.
Definition ExitCodeError : Z := 1.

Record BaseHookInput := {
  SessionID : string;
  TranscriptPath : string;
  HookEventName : string;
}.

Record ToolInput := {
  ToolInput_BaseHookInput : BaseHookInput;
  ToolName : string;
  ToolInput_ToolInput : gmap string json;
}.

(** [t.ToolInput["file_path"].(string)]: the assertion fails on a missing
    key (the [nil] interface) and on a value of another dynamic type. *)
Definition GetFilePath (t : ToolInput) : string :=
  match ToolInput_ToolInput t !! "file_path" with
  | Some (JString filePath) => filePath
  | _ => ""
  end.

Record PostToolUseInput := {
  PostToolUseInput_ToolInput : ToolInput;
  ToolResponse : gmap string json;
}.

Record NotificationInput := {
  NotificationInput_BaseHookInput : BaseHookInput;
  Message : string;
}.

Record StopInput := {
  StopInput_BaseHookInput : BaseHookInput;
  StopInput_StopHookActive : bool;
}.

Record SubagentStopInput := {
  SubagentStopInput_BaseHookInput : BaseHookInput;
  SubagentStopInput_StopHookActive : bool;
}.

Record BaseHookOutput := {
  Continue : option bool;
  StopReason : string;
  SuppressOutput : bool;
}.

Definition setContinueIfNil (o : BaseHookOutput) : BaseHookOutput :=
  {| Continue := match Continue o with None => Some true | Some b => Some b end;
     StopReason := StopReason o;
     SuppressOutput := SuppressOutput o |}.

Definition BaseHookOutput_Stop (userMessage : string) (o : BaseHookOutput)
  : BaseHookOutput :=
  {| Continue := Continue (setContinueIfNil o);
     StopReason := userMessage;
     SuppressOutput := SuppressOutput o |}.

Definition BaseHookOutput_IgnoreStdout (o : BaseHookOutput) : BaseHookOutput :=
  {| Continue := Continue o;
     StopReason := StopReason o;
     SuppressOutput := true |}.

Record DecisionOutput := {
  DecisionOutput_BaseHookOutput : BaseHookOutput;
  Decision : option string;
  Reason : option string;
}.

(** The three defined types [type X DecisionOutput]: same fields, their
    own method sets. *)
Record PreToolUseOutput := PreToolUseOutput_ { unPreToolUseOutput : DecisionOutput }.
Record PostToolUseOutput := PostToolUseOutput_ { unPostToolUseOutput : DecisionOutput }.
Record StopOutput := StopOutput_ { unStopOutput : DecisionOutput }.

(** The zero values [new(T)] allocates. *)
Definition zeroBaseHookOutput : BaseHookOutput :=
  {| Continue := None; StopReason := ""; SuppressOutput := false |}.
Definition zeroDecisionOutput : DecisionOutput :=
  {| DecisionOutput_BaseHookOutput := zeroBaseHookOutput;
     Decision := None; Reason := None |}.

Definition decide_ (decision : string) (reason : option string) (o : DecisionOutput)
  : DecisionOutput :=
  {| DecisionOutput_BaseHookOutput := DecisionOutput_BaseHookOutput o;
     Decision := Some decision;
     Reason := reason |}.

(** [Approve(approved bool, msg ...string)]. *)
Definition PreToolUseOutput_Approve (approved : bool) (msg : list string)
    (o : PreToolUseOutput) : PreToolUseOutput :=
  let d := unPreToolUseOutput o in
  PreToolUseOutput_
    (if approved then
       decide_ "approve" (match msg with m0 :: _ => Some m0 | [] => Reason d end) d
     else
       decide_ "block" (match msg with m0 :: _ => Some m0 | [] => Some "rejected" end) d).

Definition continueIfNil (d : DecisionOutput) : DecisionOutput :=
  {| DecisionOutput_BaseHookOutput := setContinueIfNil (DecisionOutput_BaseHookOutput d);
     Decision := Decision d;
     Reason := Reason d |}.

Definition PreToolUseOutput_Default (o : PreToolUseOutput) : PreToolUseOutput :=
  PreToolUseOutput_Approve true [""]
    (PreToolUseOutput_ (continueIfNil (unPreToolUseOutput o))).

Definition PostToolUseOutput_Default (o : PostToolUseOutput) : PostToolUseOutput :=
  PostToolUseOutput_ (continueIfNil (unPostToolUseOutput o)).

Definition PostToolUseOutput_Block (msg : string) (o : PostToolUseOutput)
  : PostToolUseOutput :=
  PostToolUseOutput_ (decide_ "block" (Some msg) (unPostToolUseOutput o)).

Definition StopOutput_Default (o : StopOutput) : StopOutput :=
  StopOutput_ (continueIfNil (unStopOutput o)).

Definition StopOutput_NotAllowed (msg : string) (o : StopOutput) : StopOutput :=
  StopOutput_ (decide_ "block" (Some msg) (unStopOutput o)).

(** [Stop] and [IgnoreStdout] are promoted from the embedded
    [BaseHookOutput] to every verdict type. *)
Definition onBase (f : BaseHookOutput -> BaseHookOutput) (d : DecisionOutput)
  : DecisionOutput :=
  {| DecisionOutput_BaseHookOutput := f (DecisionOutput_BaseHookOutput d);
     Decision := Decision d;
     Reason := Reason d |}.

Record Result := {
  Code : Z;
  Error : string;
  Data : string;
}.

Definition NewSuccess (data : string) : Result :=
  {| Code := ExitCodeSuccess; Error := ""; Data := data |}.

Definition NewError (msg : string) : Result :=
  {| Code := ExitCodeError; Error := msg; Data := "" |}.

Definition IsSuccess (r : Result) : bool := Code r =? ExitCodeSuccess.

(** [ExitWithMessage] never returns: it ends in [os.Exit(r.Code)].  Both
    branches write to [os.Stderr], and both pass the payload as the
    format of [Fprintf]. *)
Definition ExitWithMessage {A} (r : Result) : proc A :=
  (if IsSuccess r then
     if (0 <? String.length (Data r))%nat
     then emit (Fprintf Stderr (Data r)) else mret tt
   else
     if (0 <? String.length (Error r))%nat
     then emit (Fprintf Stderr (Error r)) else mret tt);;
  exit (Code r).

(** *** plugin.go *)

Record PluginMetadata := {
  Description : string;
  Matcher_PreToolUse : string;
  Matcher_PostToolUse : string;
}.

Record PluginInfo := {
  Name : string;
  Path : string;
  PluginInfo_Description : string;
}.

(** The capability interface.  A method of an extension is what one
    call to it does; the operations below call a method of an instance
    at most once. *)
Record IPlugin := {
  Initialize : call (option error);
  Cleanup : call (option error);
  GetMetadata : PluginMetadata;
  PreToolUse : ToolInput -> call (option PreToolUseOutput * option error);
  PostToolUse : PostToolUseInput -> call (option PostToolUseOutput * option error);
  Notification : NotificationInput -> call (option BaseHookOutput * option error);
  Stop : StopInput -> call (option StopOutput * option error);
  SubagentStop : SubagentStopInput -> call (option DecisionOutput * option error);
}.

(** [UnimplementedPlugin], embedded by an extension that supplies
    [GetMetadata] and overrides the methods it supports. *)
Definition UnimplementedPlugin (metadata : PluginMetadata) : IPlugin :=
  {| Initialize := Returned None;
     Cleanup := Returned None;
     GetMetadata := metadata;
     PreToolUse := fun _ => Panicked "implement me";
     PostToolUse := fun _ => Panicked "implement me";
     Notification := fun _ => Panicked "implement me";
     Stop := fun _ => Panicked "implement me";
     SubagentStop := fun _ => Panicked "implement me" |}.

(** The registry.  The lock [mu] serialises the operations; they are
    modelled one at a time. *)
Record PluginManager := {
  plugins : gmap string IPlugin;
  pluginPaths : gmap string string;
  pluginDir : string;
}.

Definition NewPluginManager (pluginDir : string) : PluginManager :=
  {| plugins := ∅; pluginPaths := ∅; pluginDir := pluginDir |}.

(** Go leaves the order of [range] over a map unspecified: a loop over
    [pm.plugins] is given the order the runtime picked. *)
Definition ranges (pm : PluginManager) (order : list (string * IPlugin)) : Prop :=
  order ≡ₚ map_to_list (plugins pm).

Definition UnloadPlugin (name : string) (pm : PluginManager)
  : proc (PluginManager * option error) :=
  match plugins pm !! name with
  | None => mret (pm, Some ("plugin " +:+ name +:+ " not found"))
  | Some pluginInstance =>
      err ← invoke Cleanup_ (Cleanup pluginInstance);
      match err with
      | Some e =>
          mret (pm, Some ("failed to cleanup plugin " +:+ name +:+ ": " +:+ e))
      | None =>
          mret ({| plugins := delete name (plugins pm);
                   pluginPaths := delete name (pluginPaths pm);
                   pluginDir := pluginDir pm |}, None)
      end
  end.

Definition GetPlugin (name : string) (pm : PluginManager) : option IPlugin :=
  plugins pm !! name.

Definition Plugins (order : list (string * IPlugin)) : list IPlugin :=
  order.*2.

Definition ListPlugins (order : list (string * IPlugin)) (pm : PluginManager)
  : list PluginInfo :=
  map (fun '(name, pluginInstance) =>
         {| Name := name;
            Path := default "" (pluginPaths pm !! name);
            PluginInfo_Description := Description (GetMetadata pluginInstance) |})
      order.

(** The loop of [Shutdown]: one [Cleanup] per instance, failures
    collected in [errors]. *)
Fixpoint cleanupAll (order : list (string * IPlugin)) (errors : list string)
  : proc (list string) :=
  match order with
  | [] => mret errors
  | (name, pluginInstance) :: rest =>
      err ← invoke Cleanup_ (Cleanup pluginInstance);
      cleanupAll rest
        (match err with
         | Some e => errors ++ ["failed to cleanup plugin " +:+ name +:+ ": " +:+ e]
         | None => errors
         end)
  end.

Definition Shutdown (order : list (string * IPlugin)) (pm : PluginManager)
  : proc (PluginManager * option error) :=
  errors ← cleanupAll order [];
  let pm' := {| plugins := ∅; pluginPaths := ∅; pluginDir := pluginDir pm |} in
  if (0 <? length errors)%nat
  then mret (pm', Some ("shutdown errors: " +:+ strings_Join errors "; "))
  else mret (pm', None).

(** *** plugin.go: loading *)

(** What [os.Stat] says about a path: it is there ([err == nil]), it is
    not ([os.IsNotExist(err)]), or the call fails otherwise. *)
Inductive stat := Exists | NotExist | StatFails.

(** A symbol [Lookup] finds in a shared object: a function of type
    [func() IPlugin], which returns an instance or [nil] when called, or a
    value of another type. *)
Inductive Symbol :=
| Creator (creator : call (option IPlugin))
| OtherSymbol.

(** The host the program runs on: the calls into [os], [plugin],
    [path/filepath] and [strconv] whose results the program branches
    on. *)
Record Host := {
  os_Stat : string -> stat;
  plugin_Open : string -> error + (string -> error + Symbol);
  filepath_Abs : string -> error + string;
  filepath_Base : string -> string;
  filepath_Join : list string -> string;
  filepath_Glob : string -> error + list string;
  os_UserHomeDir : error + string;
  strconv_Quote : string -> string;
}.

(** A call that is no method of [IPlugin]: it returns or panics. *)
Definition called {A} (c : call A) : proc A :=
  ([], match c with Returned a => Return a | Panicked v => GoPanic v end).

Definition LoadPlugin (host : Host) (pluginPath : string) (pm : PluginManager)
  : proc (PluginManager * option error) :=
  match os_Stat host pluginPath with
  | NotExist => mret (pm, Some ("plugin file does not exist: " +:+ pluginPath))
  | _ =>
      match plugin_Open host pluginPath with
      | inl err =>
          mret (pm, Some ("failed to open plugin " +:+ pluginPath +:+ ": " +:+ err))
      | inr p =>
          match p "New" with
          | inl err =>
              mret (pm, Some ("plugin " +:+ pluginPath
                              +:+ " does not export New function: " +:+ err))
          | inr OtherSymbol =>
              mret (pm, Some ("plugin " +:+ pluginPath
                              +:+ " New function has wrong signature"))
          | inr (Creator creator) =>
              pluginInstance ← called creator;
              match pluginInstance with
              | None =>
                  mret (pm, Some ("plugin " +:+ pluginPath
                                  +:+ " New function returned nil"))
              | Some instance =>
                  err ← invoke Initialize_ (Initialize instance);
                  match err with
                  | Some e =>
                      mret (pm, Some ("failed to initialize plugin " +:+ pluginPath
                                      +:+ ": " +:+ e))
                  | None =>
                      let absPath :=
                        match filepath_Abs host pluginPath with
                        | inl _ => pluginPath
                        | inr abs => abs
                        end in
                      let pluginName := filepath_Base host pluginPath in
                      mret ({| plugins := <[pluginName := instance]> (plugins pm);
                               pluginPaths := <[pluginName := absPath]> (pluginPaths pm);
                               pluginDir := pluginDir pm |}, None)
                  end
              end
          end
      end
  end.

(** The loop of [LoadAllPlugins]: every file is tried, the failures are
    collected in [loadErrors]. *)
Fixpoint loadEach (host : Host) (files : list string) (pm : PluginManager)
    (loadErrors : list string) : proc (PluginManager * list string) :=
  match files with
  | [] => mret (pm, loadErrors)
  | file :: rest =>
      '(pm', err) ← LoadPlugin host file pm;
      loadEach host rest pm'
        (match err with
         | Some e => loadErrors ++ [e]
         | None => loadErrors
         end)
  end.

Definition LoadAllPlugins (host : Host) (pm : PluginManager)
  : proc (PluginManager * option error) :=
  if String.eqb (pluginDir pm) "" then mret (pm, Some "plugin directory not set")
  else
    match os_Stat host (pluginDir pm) with
    | NotExist =>
        mret (pm, Some ("plugin directory does not exist: " +:+ pluginDir pm))
    | _ =>
        match filepath_Glob host (filepath_Join host [pluginDir pm; "*.so"]) with
        | inl err => mret (pm, Some ("failed to scan plugin directory: " +:+ err))
        | inr files =>
            '(pm', loadErrors) ← loadEach host files pm [];
            if (0 <? length loadErrors)%nat
            then mret (pm', Some ("failed to load some plugins: "
                                  +:+ strings_Join loadErrors "; "))
            else mret (pm', None)
        end
    end.

End types.

(** ** Package [main]: the dispatch of one event *)

Module main.
Import types.

(** The lines [printHelp] prints, one [fmt.Println] each. *)
Definition helpLines : list string :=
  [ "Claude Hooks Plugin Manager"; "";
    "USAGE:";
    "  claude-plugin [OPTIONS] <plugins...> <command>"; "";
    "COMMANDS:";
    "  list         列出已加载的插件信息";
    "  execute      执行插件（从stdin读取JSON输入）";
    "  configure    根据指定插件自动配置hooks到settings.local.json"; "";
    "OPTIONS:";
    "  --dir <path>  指定插件目录路径";
    "  --help, -h    显示此帮助信息"; "";
    "PLUGIN SPECIFICATION:";
    "  - 可以直接指定.so文件的完整路径";
    "  - 可以只指定插件名称，会从以下位置查找：";
    "    1. 使用--dir指定的目录";
    "    2. ~/.claude/hooks/（默认目录）"; "";
    "EXAMPLES:";
    "  # 直接指定插件文件路径";
    "  claude-plugin ./plugins/env.so ./plugins/announce.so list"; "";
    "  # 从指定目录加载插件";
    "  claude-plugin --dir ./plugins env announce list"; "";
    "  # 从默认路径加载插件";
    "  claude-plugin env announce execute"; "";
    "  # 配置插件到settings.local.json";
    "  claude-plugin gofmt env configure"; "";
    "  # 混合使用";
    "  claude-plugin --dir ./plugins env announce list" ].

Definition printHelp : proc unit :=
  (map (fun line => Print Stdout (line +:+ LF)) helpLines, Return tt).

(** The calls into [encoding/json] and [io] on the event.  The program
    hands the event text from one call to the next and never looks
    inside it, so these are parameters of the dispatch. *)
Record JSONLib := {
  Unmarshal_input : string -> error + gmap string json;
      (* [json.Unmarshal(data, &input)], [input map[string]any] *)
  Marshal_input : gmap string json -> error + string;
      (* [json.Marshal(input)] *)
  Unmarshal_ToolInput : string -> error + ToolInput;
  Unmarshal_PostToolUseInput : string -> error + PostToolUseInput;
  Unmarshal_NotificationInput : string -> error + NotificationInput;
  Unmarshal_StopInput : string -> error + StopInput;
  Unmarshal_SubagentStopInput : string -> error + SubagentStopInput;
}.

(** [readStdin]; [stdin] is what [io.ReadAll(os.Stdin)] returns. *)
Definition readStdin (stdin : error + string) : error + string :=
  match stdin with
  | inl err => inl ("failed to read stdin: " +:+ err)
  | inr data => inr data
  end.

Definition extractHookType (input : gmap string json) : error + string :=
  match input !! "hook_event_name" with
  | Some (JString hookType) => inr hookType
  | _ => inl "missing or invalid hook_event_name"
  end.

(** *** Verdicts as [any] and their encoding *)

(** The dynamic values [processPluginResult] receives: a pointer of one
    of the five verdict types, possibly a [nil] pointer.  An interface
    holding a [nil] pointer is not the [nil] interface. *)
Inductive any :=
| PreToolUseOutputPtr (p : option PreToolUseOutput)
| PostToolUseOutputPtr (p : option PostToolUseOutput)
| BaseHookOutputPtr (p : option BaseHookOutput)
| StopOutputPtr (p : option StopOutput)
| DecisionOutputPtr (p : option DecisionOutput).

(** Struct tags of [BaseHookOutput]: [continue,omitempty],
    [stopReason,omitempty], [suppressOutput,omitempty]. *)
Definition membersBaseHookOutput (o : BaseHookOutput) : list (string * json) :=
  match Continue o with Some b => [("continue", JBool b)] | None => [] end
  ++ (if String.eqb (StopReason o) "" then []
      else [("stopReason", JString (StopReason o))])
  ++ (if SuppressOutput o then [("suppressOutput", JBool true)] else []).

(** Struct tags of [DecisionOutput]: the embedded fields, then
    [decision,omitzero] and [reason,omitzero] (a [nil] pointer is the
    zero value and is left out; an empty string behind a pointer is
    written). *)
Definition membersDecisionOutput (d : DecisionOutput) : list (string * json) :=
  membersBaseHookOutput (DecisionOutput_BaseHookOutput d)
  ++ match Decision d with Some s => [("decision", JString s)] | None => [] end
  ++ match Reason d with Some s => [("reason", JString s)] | None => [] end.

Definition encodePtr {T} (members : T -> list (string * json)) (p : option T) : json :=
  match p with
  | None => JNull
  | Some v => JObject (members v)
  end.

(** [json.Marshal(result)]: the document written for a verdict.  It
    cannot fail on these types. *)
Definition json_Marshal (result : any) : error + json :=
  inr match result with
      | PreToolUseOutputPtr p =>
          encodePtr (fun v => membersDecisionOutput (unPreToolUseOutput v)) p
      | PostToolUseOutputPtr p =>
          encodePtr (fun v => membersDecisionOutput (unPostToolUseOutput v)) p
      | BaseHookOutputPtr p => encodePtr membersBaseHookOutput p
      | StopOutputPtr p =>
          encodePtr (fun v => membersDecisionOutput (unStopOutput v)) p
      | DecisionOutputPtr p => encodePtr membersDecisionOutput p
      end.

Definition checkBlockDecision (data : json) : option Result :=
  match encoding_json.Unmarshal_map data with
  | inl _ => None
  | inr m =>
      match m !! "decision" with
      | Some (JString decision) =>
          if String.eqb decision "block" then
            let reason :=
              match m !! "reason" with Some (JString r) => r | _ => "" end in
            Some {| Code := ExitCodeBlockingError;
                    Error := reason +:+ LF;
                    Data := "" |}
          else None
      | _ => None
      end
  end.

Definition processPluginResult (result : option any) (err : option error) : Result :=
  match err with
  | Some e => NewError e
  | None =>
      match result with
      | None => NewSuccess ""
      | Some v =>
          match json_Marshal v with
          | inl e => NewError ("failed to marshal result: " +:+ e)
          | inr data =>
              match checkBlockDecision data with
              | Some blockResult => blockResult
              | None => NewSuccess (encoding_json.text data)
              end
          end
      end
  end.

(** The constraint of [withDefault]: a type with a [Default] method on
    its pointer; [new] is [new(T)]. *)
Class Defaulting (T : Type) := {
  new : T;
  Default : T -> T;
}.

#[export] Instance PreToolUseOutput_Defaulting : Defaulting PreToolUseOutput :=
  {| new := PreToolUseOutput_ zeroDecisionOutput; Default := PreToolUseOutput_Default |}.
#[export] Instance PostToolUseOutput_Defaulting : Defaulting PostToolUseOutput :=
  {| new := PostToolUseOutput_ zeroDecisionOutput; Default := PostToolUseOutput_Default |}.
#[export] Instance StopOutput_Defaulting : Defaulting StopOutput :=
  {| new := StopOutput_ zeroDecisionOutput; Default := StopOutput_Default |}.

Definition withDefault {T} `{Defaulting T} (input : option T) : option T :=
  match input with
  | Some v => Some v
  | None => Some (Default new)
  end.

(** *** The handlers *)

Section Dispatch.
Context (lib : JSONLib).

Definition readAndParseInput (stdin : error + string)
  : error + gmap string json :=
  match readStdin stdin with
  | inl err => inl ("failed to read stdin: " +:+ err)
  | inr data =>
      match Unmarshal_input lib data with
      | inl err => inl ("invalid JSON input: " +:+ err)
      | inr input => inr input
      end
  end.

Definition handlePreToolUse (inputData : string) (plugin : IPlugin) : proc Result :=
  match Unmarshal_ToolInput lib inputData with
  | inl err => mret (NewError ("invalid PreToolUse input: " +:+ err))
  | inr input =>
      '(result, err) ← invoke PreToolUse_ (PreToolUse plugin input);
      mret (processPluginResult (Some (PreToolUseOutputPtr (withDefault result))) err)
  end.

Definition handlePostToolUse (inputData : string) (plugin : IPlugin) : proc Result :=
  match Unmarshal_PostToolUseInput lib inputData with
  | inl err => mret (NewError ("invalid PostToolUse input: " +:+ err))
  | inr input =>
      '(result, err) ← invoke PostToolUse_ (PostToolUse plugin input);
      mret (processPluginResult (Some (PostToolUseOutputPtr (withDefault result))) err)
  end.

Definition handleNotification (inputData : string) (plugin : IPlugin) : proc Result :=
  match Unmarshal_NotificationInput lib inputData with
  | inl err => mret (NewError ("invalid Notification input: " +:+ err))
  | inr input =>
      '(result, err) ← invoke Notification_ (Notification plugin input);
      mret (processPluginResult (Some (BaseHookOutputPtr result)) err)
  end.

Definition handleStop (inputData : string) (plugin : IPlugin) : proc Result :=
  match Unmarshal_StopInput lib inputData with
  | inl err => mret (NewError ("invalid Stop input: " +:+ err))
  | inr input =>
      '(result, err) ← invoke Stop_ (Stop plugin input);
      mret (processPluginResult (Some (StopOutputPtr (withDefault result))) err)
  end.

Definition handleSubagentStop (inputData : string) (plugin : IPlugin) : proc Result :=
  match Unmarshal_SubagentStopInput lib inputData with
  | inl err => mret (NewError ("invalid SubagentStop input: " +:+ err))
  | inr input =>
      '(result, err) ← invoke SubagentStop_ (SubagentStop plugin input);
      mret (processPluginResult (Some (DecisionOutputPtr result)) err)
  end.

Definition hookHandlers : gmap string (string -> IPlugin -> proc Result) :=
  list_to_map
    [ ("PreToolUse", handlePreToolUse);
      ("PostToolUse", handlePostToolUse);
      ("Notification", handleNotification);
      ("Stop", handleStop);
      ("SubagentStop", handleSubagentStop) ].

Definition executePlugin (hookType : string) (inputData : string) (plugin : IPlugin)
  : proc Result :=
  match hookHandlers !! hookType with
  | None => mret (NewError ("unknown hook type: " +:+ hookType))
  | Some handler => handler inputData plugin
  end.

(** The loop of [handleExecuteCommand] over [plugins], and what follows
    it; [lastResult] is the variable of that name. *)
Fixpoint forEachPlugin (hookType inputData : string) (plugins : list IPlugin)
    (lastResult : option Result) : proc (option error) :=
  match plugins with
  | [] =>
      match lastResult with
      | Some r => ExitWithMessage r
      | None => mret None
      end
  | plugin :: rest =>
      result ← executePlugin hookType inputData plugin;
      if negb (IsSuccess result) then ExitWithMessage result
      else forEachPlugin hookType inputData rest (Some result)
  end.

(** [plugins] is the slice [pm.Plugins()] returned. *)
Definition handleExecuteCommand (plugins : list IPlugin) (stdin : error + string)
  : proc (option error) :=
  if (length plugins =? 0)%nat then mret (Some "no plugins loaded")
  else
    match readAndParseInput stdin with
    | inl err => mret (Some err)
    | inr input =>
        match extractHookType input with
        | inl err => mret (Some err)
        | inr hookType =>
            match Marshal_input lib input with
            | inl err => mret (Some ("failed to marshal input: " +:+ err))
            | inr inputData => forEachPlugin hookType inputData plugins None
            end
        end
    end.

(** [main] from the call of [run] on, for the command [execute]: an
    error that comes back is printed with the help text and the process
    exits with [ExitCodeError]. *)
Definition main_execute (plugins : list IPlugin) (stdin : error + string)
  : proc unit :=
  err ← handleExecuteCommand plugins stdin;
  match err with
  | Some e =>
      emit (Print Stderr ("error: " +:+ e +:+ LF));;
      printHelp;;
      exit ExitCodeError
  | None => mret tt
  end.

End Dispatch.

(** *** Command line (main.go) *)

(** [strings.HasPrefix], [strings.HasSuffix], [strings.TrimPrefix] and
    [strings.TrimSuffix]. *)
Definition strings_HasPrefix (s prefix : string) : bool := String.prefix prefix s.

Definition strings_HasSuffix (s suffix : string) : bool :=
  (String.length suffix <=? String.length s)%nat
  && String.eqb (substring (String.length s - String.length suffix)
                   (String.length suffix) s) suffix.

Definition strings_TrimPrefix (s prefix : string) : string :=
  if strings_HasPrefix s prefix
  then substring (String.length prefix) (String.length s - String.length prefix) s
  else s.

Definition strings_TrimSuffix (s suffix : string) : string :=
  if strings_HasSuffix s suffix
  then substring 0 (String.length s - String.length suffix) s
  else s.

Definition hasHelpFlag (args : list string) : bool :=
  existsb (fun arg => String.eqb arg "--help" || String.eqb arg "-h") args.

Definition isCommand (arg : string) : bool :=
  String.eqb arg "list" || String.eqb arg "execute" || String.eqb arg "configure".

Record config := {
  config_pluginPaths : list string;
  config_command : string;
}.

Definition withCommand (command : string) (cfg : config) : config :=
  {| config_pluginPaths := config_pluginPaths cfg; config_command := command |}.

Definition withPlugin (pluginPath : string) (cfg : config) : config :=
  {| config_pluginPaths := config_pluginPaths cfg ++ [pluginPath];
     config_command := config_command cfg |}.

Section CommandLine.
Context (host : Host).

(** The loop of [findPluginInDefaultPath] over [possibleNames]. *)
Fixpoint firstInDefaultPath (defaultPath : string) (possibleNames : list string) : string :=
  match possibleNames with
  | [] => ""
  | name :: rest =>
      let pluginPath := filepath_Join host [defaultPath; name] in
      match os_Stat host pluginPath with
      | Exists =>
          if strings_HasSuffix pluginPath ".so" then pluginPath
          else firstInDefaultPath defaultPath rest
      | _ => firstInDefaultPath defaultPath rest
      end
  end.

Definition findPluginInDefaultPath (pluginName : string) : string :=
  match os_UserHomeDir host with
  | inl _ => ""
  | inr homeDir =>
      let defaultPath := filepath_Join host [homeDir; ".claude"; "hooks"] in
      firstInDefaultPath defaultPath [pluginName +:+ ".so"; pluginName]
  end.

(** The loop of [parsePluginsFromDir]: [rest] is [args[i+1:]]. *)
Fixpoint dirLoop (dir : string) (rest : list string) (i : nat) (cfg : config)
  : nat * config :=
  match rest with
  | [] => (i, cfg)
  | nextArg :: rest' =>
      if isCommand nextArg then (S i, withCommand nextArg cfg)
      else
        let pluginPath := filepath_Join host [dir; nextArg +:+ ".so"] in
        dirLoop dir rest' (S i)
          (match os_Stat host pluginPath with
           | Exists => withPlugin pluginPath cfg
           | _ =>
               let defaultPath := findPluginInDefaultPath nextArg in
               if negb (String.eqb defaultPath "") then withPlugin defaultPath cfg
               else withPlugin pluginPath cfg
           end)
  end.

Definition parsePluginsFromDir (args : list string) (startIdx : nat) (dir : string)
    (cfg : config) : nat * config :=
  dirLoop dir (drop (S startIdx) args) startIdx cfg.

(** The loop of [parsePluginsFromDir] returns an index at or after the
    one it starts from. *)
Lemma dirLoop_index (dir : string) (rest : list string) (i : nat) (cfg : config) :
  (i <= (dirLoop dir rest i cfg).1)%nat.
Proof.
  revert i cfg. induction rest as [|nextArg rest IH]; intros i cfg; cbn [dirLoop].
  - reflexivity.
  - destruct (isCommand nextArg); cbn [fst]; [lia|].
    etransitivity; [|apply IH]. lia.
Qed.

(** Which case of the [switch] in [parseArgs] an argument takes. *)
Inductive argCase :=
| HelpFlag | DirFlag | CommandWord | SharedObject | PluginName | UnknownOption.

Definition switchCase (arg : string) : argCase :=
  if String.eqb arg "--help" || String.eqb arg "-h" then HelpFlag
  else if String.eqb arg "--dir" then DirFlag
  else if isCommand arg then CommandWord
  else if strings_HasSuffix arg ".so" then SharedObject
  else if negb (strings_HasPrefix arg "-") then PluginName
  else UnknownOption.

Definition usageHint : string := LF +:+ LF +:+ "Use --help for usage information".

(** The loop of [parseArgs] from index [i] on, and the check after it. *)
Equations? parseFrom (args : list string) (i : nat) (cfg : config)
  : error + config by wf (length args - i)%nat lt :=
  parseFrom args i cfg with Equations.Prop.Logic.inspect (args !! i) := {
    | exist _ None _ :=
        if String.eqb (config_command cfg) ""
        then inl ("no command specified (list or execute)" +:+ usageHint)
        else inr cfg
    | exist _ (Some arg) Harg with switchCase arg := {
        | HelpFlag := parseFrom args (S i) cfg
        | DirFlag with args !! S i := {
            | None := inl "--dir requires a directory path"
            | Some dir :=
                parseFrom args (S (parsePluginsFromDir args (S i) dir cfg).1)
                  (parsePluginsFromDir args (S i) dir cfg).2 }
        | CommandWord := parseFrom args (S i) (withCommand arg cfg)
        | SharedObject := parseFrom args (S i) (withPlugin arg cfg)
        | PluginName with findPluginInDefaultPath arg := {
            | pluginPath :=
                if negb (String.eqb pluginPath "")
                then parseFrom args (S i) (withPlugin pluginPath cfg)
                else inl ("plugin not found: " +:+ strconv_Quote host arg +:+ usageHint) }
        | UnknownOption :=
            inl ("unknown option: " +:+ strconv_Quote host arg +:+ usageHint) } }.
Proof.
  all: apply lookup_lt_Some in Harg.
  all: try lia.
  pose proof (dirLoop_index dir (drop (S (S i)) args) (S i) cfg) as Hi.
  unfold parsePluginsFromDir. lia.
Qed.

Definition parseArgs (args : list string) : error + config :=
  parseFrom args 0 {| config_pluginPaths := []; config_command := "" |}.

End CommandLine.

Fixpoint loadPlugins (host : Host) (paths : list string) (pm : PluginManager)
  : proc (PluginManager * option error) :=
  match paths with
  | [] => mret (pm, None)
  | path :: rest =>
      '(pm', err) ← LoadPlugin host path pm;
      match err with
      | Some e => mret (pm', Some ("failed to load plugin " +:+ path +:+ ": " +:+ e))
      | None => loadPlugins host rest pm'
      end
  end.

(** [main]; [run] is the function of that name. *)
Definition main (run : list string -> proc (option error)) (args : list string)
  : proc unit :=
  if (length args =? 0)%nat || hasHelpFlag args then
    printHelp;;
    if (length args =? 0)%nat then exit ExitCodeError else mret tt
  else
    err ← run args;
    match err with
    | Some e =>
        emit (Print Stderr ("error: " +:+ e +:+ LF));;
        printHelp;;
        exit ExitCodeError
    | None => mret tt
    end.

(** *** Settings (main.go) *)

Record HookEntry := {
  HookEntry_Type : string;
  HookEntry_Command : string;
}.

Record HookConfig := {
  Matcher : string;
  Hooks : list HookEntry;
}.

(** The hooks written for the extensions of one matcher: the inner loops
    of [updateHookConfigs]. *)
Definition hookEntries (pluginNames : list string) : list HookEntry :=
  map (fun pluginName =>
         let cleanName := strings_TrimSuffix pluginName ".so" in
         {| HookEntry_Type := "command";
            HookEntry_Command := "claude-plugin " +:+ cleanName +:+ " execute" |})
      pluginNames.

(** The first loop of [updateHookConfigs], over [existing]: the result so
    far and [processedMatchers]. *)
Definition updateExisting (newPlugins : gmap string (list string))
    (existing : list HookConfig) : list HookConfig * gmap string bool :=
  fold_left
    (fun '(result, processedMatchers) config =>
       match newPlugins !! Matcher config with
       | Some pluginNames =>
           (result ++ [{| Matcher := Matcher config; Hooks := hookEntries pluginNames |}],
            <[Matcher config := true]> processedMatchers)
       | None => (result ++ [config], processedMatchers)
       end)
    existing ([], ∅).

(** The second loop, over [newPlugins] in the order [order] of the
    [range]. *)
Definition addMissing (processedMatchers : gmap string bool)
    (order : list (string * list string)) (result : list HookConfig) : list HookConfig :=
  fold_left
    (fun result '(matcher, pluginNames) =>
       if default false (processedMatchers !! matcher) then result
       else result ++ [{| Matcher := matcher; Hooks := hookEntries pluginNames |}])
    order result.

Definition updateHookConfigs (order : list (string * list string))
    (existing : list HookConfig) (newPlugins : gmap string (list string))
  : list HookConfig :=
  let '(result, processedMatchers) := updateExisting newPlugins existing in
  addMissing processedMatchers order result.

(** The loop of [updateSettingsFile] over the listing: the names of the
    extensions by matcher, for [PreToolUse] and for [PostToolUse]. *)
Definition appendName (matcher name : string) (byMatcher : gmap string (list string))
  : gmap string (list string) :=
  <[matcher := default [] (byMatcher !! matcher) ++ [name]]> byMatcher.

Definition collectMatchers (pm : PluginManager) (listing : list PluginInfo)
  : gmap string (list string) * gmap string (list string) :=
  fold_left
    (fun '(preToolUsePlugins, postToolUsePlugins) info =>
       match GetPlugin (Name info) pm with
       | None => (preToolUsePlugins, postToolUsePlugins)
       | Some plugin =>
           let metadata := GetMetadata plugin in
           (if negb (String.eqb (Matcher_PreToolUse metadata) "")
            then appendName (Matcher_PreToolUse metadata) (Name info) preToolUsePlugins
            else preToolUsePlugins,
            if negb (String.eqb (Matcher_PostToolUse metadata) "")
            then appendName (Matcher_PostToolUse metadata) (Name info) postToolUsePlugins
            else postToolUsePlugins)
       end)
    listing (∅, ∅).

(** *** The listing (main.go) *)

(** The first lines of [writePluginInfo]: the path as it is shown. *)
Definition displayPath (host : Host) (path : string) : string :=
  match os_UserHomeDir host with
  | inr homeDir =>
      if strings_HasPrefix path homeDir
      then "~" +:+ strings_TrimPrefix path homeDir
      else path
  | inl _ => path
  end.

(** [writePluginInfo]: [sb] is the text of the [strings.Builder]. *)
Definition writePluginInfo (host : Host) (sb : string) (info : PluginInfo)
    (metadata : PluginMetadata) : string :=
  let displayPath := displayPath host (Path info) in
  let sb := sb +:+ (LF +:+ "• Plugin: " +:+ Name info +:+ " (" +:+ displayPath +:+ ")" +:+ LF) in
  let sb := sb +:+ ("  Description: " +:+ PluginInfo_Description info +:+ LF) in
  let sb := sb +:+ ("  Matchers:" +:+ LF) in
  let matchers := [ ("PreToolUse", Matcher_PreToolUse metadata);
                    ("PostToolUse", Matcher_PostToolUse metadata) ] in
  let '(sb, hasMatchers) :=
    fold_left
      (fun '((sb, hasMatchers) : string * bool) '((name, value) : string * string) =>
         if negb (String.eqb value "")
         then (sb +:+ ("    " +:+ name +:+ ": " +:+ value +:+ LF), true)
         else (sb, hasMatchers))
      matchers (sb, false) in
  if negb hasMatchers then sb +:+ ("    No matchers configured" +:+ LF) else sb.

(** [listPlugins]; [order] is the order of the [range] in
    [ListPlugins]. *)
Definition listPlugins (host : Host) (order : list (string * IPlugin))
    (pm : PluginManager) : Result :=
  let plugins := ListPlugins order pm in
  if (length plugins =? 0)%nat then NewSuccess ("No plugins loaded." +:+ LF)
  else
    NewSuccess
      (fold_left
         (fun sb info =>
            match GetPlugin (Name info) pm with
            | None => sb
            | Some plugin => writePluginInfo host sb info (GetMetadata plugin)
            end)
         plugins ("Loaded plugins:" +:+ LF)).

Definition handleListCommand (host : Host) (order : list (string * IPlugin))
    (pm : PluginManager) : proc (option error) :=
  ExitWithMessage (A := unit) (listPlugins host order pm);;
  mret None.

End main.

(** ** Vocabulary of the statements *)

Import types main.

(** The method calls among the events of a run. *)
Definition invocations (t : list event) : list method :=
  omap (fun e => match e with Invoke m => Some m | _ => None end) t.

(** What goes to a stream, in order: the formats and texts written. *)
Definition written (w : stream) (t : list event) : list string :=
  omap (fun e =>
          match e, w with
          | Fprintf Stdout s, Stdout | Fprintf Stderr s, Stderr
          | Print Stdout s, Stdout | Print Stderr s, Stderr => Some s
          | _, _ => None
          end) t.

(** The five kind tags [hookHandlers] has an entry for. *)
Definition recognized : list string :=
  ["PreToolUse"; "PostToolUse"; "Notification"; "Stop"; "SubagentStop"].

(** The decision and the reason a verdict carries, if it has any. *)
Definition DecisionOutput_of (v : any) : option DecisionOutput :=
  match v with
  | PreToolUseOutputPtr p => unPreToolUseOutput <$> p
  | PostToolUseOutputPtr p => unPostToolUseOutput <$> p
  | StopOutputPtr p => unStopOutput <$> p
  | DecisionOutputPtr p => p
  | BaseHookOutputPtr _ => None
  end.

Definition Decision_of (v : any) : option string :=
  DecisionOutput_of v ≫= Decision.

Definition Reason_of (v : any) : option string :=
  DecisionOutput_of v ≫= Reason.

(** The value a handler passes on to [processPluginResult]: the verdict of
    the extension, replaced by the default of its kind when the kind has
    one and the extension returned [nil]. *)
Definition defaulted (v : any) : any :=
  match v with
  | PreToolUseOutputPtr p => PreToolUseOutputPtr (withDefault p)
  | PostToolUseOutputPtr p => PostToolUseOutputPtr (withDefault p)
  | StopOutputPtr p => StopOutputPtr (withDefault p)
  | BaseHookOutputPtr p => BaseHookOutputPtr p
  | DecisionOutputPtr p => DecisionOutputPtr p
  end.

(** [answers lib hookType inputData plugin m v err]: the handler of
    [hookType] decodes [inputData], calls method [m] of [plugin] on it, and
    the call returns the verdict [v] and the error [err]. *)
Inductive answers (lib : JSONLib) (inputData : string) (plugin : IPlugin)
  : string -> method -> any -> option error -> Prop :=
| answers_PreToolUse input result err :
    Unmarshal_ToolInput lib inputData = inr input ->
    PreToolUse plugin input = Returned (result, err) ->
    answers lib inputData plugin "PreToolUse" PreToolUse_ (PreToolUseOutputPtr result) err
| answers_PostToolUse input result err :
    Unmarshal_PostToolUseInput lib inputData = inr input ->
    PostToolUse plugin input = Returned (result, err) ->
    answers lib inputData plugin "PostToolUse" PostToolUse_ (PostToolUseOutputPtr result) err
| answers_Notification input result err :
    Unmarshal_NotificationInput lib inputData = inr input ->
    Notification plugin input = Returned (result, err) ->
    answers lib inputData plugin "Notification" Notification_ (BaseHookOutputPtr result) err
| answers_Stop input result err :
    Unmarshal_StopInput lib inputData = inr input ->
    Stop plugin input = Returned (result, err) ->
    answers lib inputData plugin "Stop" Stop_ (StopOutputPtr result) err
| answers_SubagentStop input result err :
    Unmarshal_SubagentStopInput lib inputData = inr input ->
    SubagentStop plugin input = Returned (result, err) ->
    answers lib inputData plugin "SubagentStop" SubagentStop_ (DecisionOutputPtr result) err.

(** An extension the loop goes past: its handler returns a success. *)
Definition passes (lib : JSONLib) (hookType inputData : string) (plugin : IPlugin) : Prop :=
  exists t r, executePlugin lib hookType inputData plugin = (t, Return r)
              /\ IsSuccess r = true.

(** The event read from [stdin] has kind [hookType] and is handed to the
    handlers as [inputData]. *)
Definition receives (lib : JSONLib) (stdin : error + string) (hookType inputData : string)
  : Prop :=
  exists input, readAndParseInput lib stdin = inr input
                /\ extractHookType input = inr hookType
                /\ Marshal_input lib input = inr inputData.

(** *** Verdicts made with the methods of their type *)

Inductive PreToolUseCall :=
| Pre_Default
| Pre_Approve (approved : bool) (msg : list string)
| Pre_Stop (userMessage : string)
| Pre_IgnoreStdout.

Inductive PostToolUseCall :=
| Post_Default
| Post_Block (msg : string)
| Post_Stop (userMessage : string)
| Post_IgnoreStdout.

Inductive StopCall :=
| Stop_Default
| Stop_NotAllowed (msg : string)
| Stop_Stop (userMessage : string)
| Stop_IgnoreStdout.

Definition callPreToolUse (o : PreToolUseOutput) (c : PreToolUseCall) : PreToolUseOutput :=
  match c with
  | Pre_Default => PreToolUseOutput_Default o
  | Pre_Approve approved msg => PreToolUseOutput_Approve approved msg o
  | Pre_Stop userMessage =>
      PreToolUseOutput_ (onBase (BaseHookOutput_Stop userMessage) (unPreToolUseOutput o))
  | Pre_IgnoreStdout =>
      PreToolUseOutput_ (onBase BaseHookOutput_IgnoreStdout (unPreToolUseOutput o))
  end.

Definition callPostToolUse (o : PostToolUseOutput) (c : PostToolUseCall) : PostToolUseOutput :=
  match c with
  | Post_Default => PostToolUseOutput_Default o
  | Post_Block msg => PostToolUseOutput_Block msg o
  | Post_Stop userMessage =>
      PostToolUseOutput_ (onBase (BaseHookOutput_Stop userMessage) (unPostToolUseOutput o))
  | Post_IgnoreStdout =>
      PostToolUseOutput_ (onBase BaseHookOutput_IgnoreStdout (unPostToolUseOutput o))
  end.

Definition callStop (o : StopOutput) (c : StopCall) : StopOutput :=
  match c with
  | Stop_Default => StopOutput_Default o
  | Stop_NotAllowed msg => StopOutput_NotAllowed msg o
  | Stop_Stop userMessage =>
      StopOutput_ (onBase (BaseHookOutput_Stop userMessage) (unStopOutput o))
  | Stop_IgnoreStdout =>
      StopOutput_ (onBase BaseHookOutput_IgnoreStdout (unStopOutput o))
  end.

(** A verdict as an extension makes it: the zero value ([var ret T]) and a
    sequence of method calls on it. *)
Definition madePreToolUse (calls : list PreToolUseCall) : PreToolUseOutput :=
  fold_left callPreToolUse calls new.
Definition madePostToolUse (calls : list PostToolUseCall) : PostToolUseOutput :=
  fold_left callPostToolUse calls new.
Definition madeStop (calls : list StopCall) : StopOutput :=
  fold_left callStop calls new.

(** [decision == "block"] implies a reason that is present. *)
Definition blockHasReason (d : DecisionOutput) : Prop :=
  Decision d = Some "block" -> is_Some (Reason d).

(** The registry [Shutdown] leaves. *)
Definition emptied (pm : PluginManager) : PluginManager :=
  {| plugins := ∅; pluginPaths := ∅; pluginDir := pluginDir pm |}.

(** *** Vocabulary of the further properties *)


(** A verdict that is a [nil] pointer. *)
Definition isNil (v : any) : bool :=
  match v with
  | PreToolUseOutputPtr None | PostToolUseOutputPtr None | BaseHookOutputPtr None
  | StopOutputPtr None | DecisionOutputPtr None => true
  | _ => false
  end.

(** [undecodable lib inputData hookType e]: the handler of [hookType]
    fails to decode [inputData], with the error [e]. *)
Inductive undecodable (lib : JSONLib) (inputData : string) : string -> error -> Prop :=
| undecodable_PreToolUse e :
    Unmarshal_ToolInput lib inputData = inl e ->
    undecodable lib inputData "PreToolUse" e
| undecodable_PostToolUse e :
    Unmarshal_PostToolUseInput lib inputData = inl e ->
    undecodable lib inputData "PostToolUse" e
| undecodable_Notification e :
    Unmarshal_NotificationInput lib inputData = inl e ->
    undecodable lib inputData "Notification" e
| undecodable_Stop e :
    Unmarshal_StopInput lib inputData = inl e ->
    undecodable lib inputData "Stop" e
| undecodable_SubagentStop e :
    Unmarshal_SubagentStopInput lib inputData = inl e ->
    undecodable lib inputData "SubagentStop" e.

(** What [ExitWithMessage] writes: the payload as a format, unless it is
    empty. *)
Definition payloadWritten (payload : string) : list event :=
  if String.eqb payload "" then [] else [Fprintf Stderr payload].

(** The messages [Shutdown] collects, in the order of its loop. *)
Definition cleanupFailures (order : list (string * IPlugin)) : list string :=
  omap (fun entry =>
          match Cleanup entry.2 with
          | Returned (Some e) =>
              Some ("failed to cleanup plugin " +:+ entry.1 +:+ ": " +:+ e)
          | _ => None
          end) order.

(** The methods of a [BaseHookOutput], the verdict of [Notification]. *)
Inductive BaseHookOutputCall :=
| Base_Stop (userMessage : string)
| Base_IgnoreStdout.

Definition callBaseHookOutput (o : BaseHookOutput) (c : BaseHookOutputCall)
  : BaseHookOutput :=
  match c with
  | Base_Stop userMessage => BaseHookOutput_Stop userMessage o
  | Base_IgnoreStdout => BaseHookOutput_IgnoreStdout o
  end.

Definition madeBaseHookOutput (calls : list BaseHookOutputCall) : BaseHookOutput :=
  fold_left callBaseHookOutput calls zeroBaseHookOutput.

(** The document [json.Marshal] writes for a verdict. *)
Definition encoded (v : any) : json :=
  match json_Marshal v with inr data => data | inl _ => JNull end.


(** The payload of an extension that returns neither verdict nor error,
    by kind: the default verdict encoded where the kind has one, the text
    [null] where it has none. *)
Definition noOpinionPayload (hookType : string) : string :=
  if String.eqb hookType "PreToolUse" then
    encoding_json.text (JObject [ ("continue", JBool true);
                                  ("decision", JString "approve");
                                  ("reason", JString "") ])
  else if String.eqb hookType "PostToolUse" || String.eqb hookType "Stop" then
    encoding_json.text (JObject [ ("continue", JBool true) ])
  else "null".

(** [continue] is unset or true. *)
Definition neverStops (o : BaseHookOutput) : Prop :=
  Continue o = None \/ Continue o = Some true.

(** The command of a configuration is unset, or one of the three command
    words, taken from the arguments. *)
Definition commandFrom (args : list string) (cfg : config) : Prop :=
  config_command cfg = ""
  \/ (isCommand (config_command cfg) = true /\ config_command cfg ∈ args).

(** The registries the operations of [PluginManager] can produce. *)
Inductive reachable (host : Host) : PluginManager -> Prop :=
| reachable_New pluginDir : reachable host (NewPluginManager pluginDir)
| reachable_LoadPlugin pm pluginPath t pm' err :
    reachable host pm ->
    LoadPlugin host pluginPath pm = (t, Return (pm', err)) ->
    reachable host pm'
| reachable_LoadAllPlugins pm t pm' err :
    reachable host pm ->
    LoadAllPlugins host pm = (t, Return (pm', err)) ->
    reachable host pm'
| reachable_UnloadPlugin pm name t pm' err :
    reachable host pm ->
    UnloadPlugin name pm = (t, Return (pm', err)) ->
    reachable host pm'
| reachable_Shutdown pm order t pm' err :
    reachable host pm ->
    ranges pm order ->
    Shutdown order pm = (t, Return (pm', err)) ->
    reachable host pm'.

(** The two maps of the registry have the same names. *)
Definition sameNames (pm : PluginManager) : Prop :=
  forall name, is_Some (plugins pm !! name) <-> is_Some (pluginPaths pm !! name).

(** One configuration after [updateHookConfigs]: its hooks are replaced
    when its matcher has extensions, it is kept as it is otherwise. *)
Definition refreshed (newPlugins : gmap string (list string)) (config : HookConfig)
  : HookConfig :=
  match newPlugins !! Matcher config with
  | Some pluginNames => {| Matcher := Matcher config; Hooks := hookEntries pluginNames |}
  | None => config
  end.

(** The configuration added for a matcher that had none. *)
Definition added (entry : string * list string) : HookConfig :=
  {| Matcher := entry.1; Hooks := hookEntries entry.2 |}.

(** [order] is an order in which [range] can go through the map. *)
Definition rangesOver {A} (m : gmap string A) (order : list (string * A)) : Prop :=
  order ≡ₚ map_to_list m.

(** The extension registered as [name] asks for [matcher], read from its
    metadata by [selector]. *)
Definition asksFor (selector : PluginMetadata -> string) (pm : PluginManager)
    (matcher name : string) : Prop :=
  matcher <> ""
  /\ exists plugin, GetPlugin name pm = Some plugin
                    /\ selector (GetMetadata plugin) = matcher.

(** The hook written for the extension [pluginName]. *)
Definition hookFor (pluginName : string) : HookEntry :=
  {| HookEntry_Type := "command";
     HookEntry_Command :=
       "claude-plugin " +:+ strings_TrimSuffix pluginName ".so" +:+ " execute" |}.

(** What the switch of [parseArgs] does with an argument that it takes as
    a command or as a path to a shared object. *)
Definition plainStep (cfg : config) (arg : string) : config :=
  match switchCase arg with
  | CommandWord => withCommand arg cfg
  | SharedObject => withPlugin arg cfg
  | _ => cfg
  end.

(** The check at the end of [parseArgs]. *)
Definition checked (cfg : config) : error + config :=
  if String.eqb (config_command cfg) ""
  then inl ("no command specified (list or execute)" +:+ usageHint)
  else inr cfg.

(** A path that can be handed to [LoadPlugin]: it ends in [.so], and it
    is an argument of the command line or a file that exists. *)
Definition loadable (host : Host) (args : list string) (pluginPath : string) : Prop :=
  strings_HasSuffix pluginPath ".so" = true
  /\ (pluginPath ∈ args \/ os_Stat host pluginPath = Exists).

(** What the listing says of one extension. *)
Definition listed (host : Host) (pm : PluginManager) (entry : string * IPlugin) : string :=
  writePluginInfo host ""
    {| Name := entry.1;
       Path := default "" (pluginPaths pm !! entry.1);
       PluginInfo_Description := Description (GetMetadata entry.2) |}
    (GetMetadata entry.2).

Definition concatenated (texts : list string) : string :=
  fold_right String.append "" texts.

(** ** Sample events, decoders and extensions *)

(** The event of the scenario in the specification, members in the order
    [json.Marshal] writes a map (sorted by key). *)
Definition dotEnvEvent : json :=
  JObject [ ("hook_event_name", JString "PreToolUse");
            ("tool_input", JObject [("file_path", JString ".env")]);
            ("tool_name", JString "Read") ].

(** An event whose kind tag is none of the five. *)
Definition strangeEvent : json :=
  JObject [ ("hook_event_name", JString "PreCompact") ].

Definition dotEnvToolInput : ToolInput :=
  {| ToolInput_BaseHookInput :=
       {| SessionID := ""; TranscriptPath := ""; HookEventName := "PreToolUse" |};
     ToolName := "Read";
     ToolInput_ToolInput := {[ "file_path" := JString ".env" ]} |}.

(** Decoders that know one event: its text decodes to its members, any
    other text is refused. *)
Definition only {A} (event : json) (a : A) (data : string) : error + A :=
  if String.eqb data (encoding_json.text event) then inr a
  else inl "invalid character".

Definition sampleLib (event : json) : JSONLib :=
  {| Unmarshal_input := fun data =>
       if String.eqb data (encoding_json.text event)
       then encoding_json.Unmarshal_map event
       else inl "invalid character";
     Marshal_input := fun _ => inr (encoding_json.text event);
     Unmarshal_ToolInput := only event dotEnvToolInput;
     Unmarshal_PostToolUseInput :=
       only event {| PostToolUseInput_ToolInput := dotEnvToolInput; ToolResponse := ∅ |};
     Unmarshal_NotificationInput :=
       only event {| NotificationInput_BaseHookInput := ToolInput_BaseHookInput dotEnvToolInput;
                     Message := "" |};
     Unmarshal_StopInput :=
       only event {| StopInput_BaseHookInput := ToolInput_BaseHookInput dotEnvToolInput;
                     StopInput_StopHookActive := false |};
     Unmarshal_SubagentStopInput :=
       only event {| SubagentStopInput_BaseHookInput := ToolInput_BaseHookInput dotEnvToolInput;
                     SubagentStopInput_StopHookActive := false |} |}.

Definition noMetadata : PluginMetadata :=
  {| Description := ""; Matcher_PreToolUse := ""; Matcher_PostToolUse := "" |}.

(** An extension whose [PreToolUse] is [f] and that leaves the rest to
    [UnimplementedPlugin]. *)
Definition onPreToolUse (cleanup : option error)
    (f : ToolInput -> option PreToolUseOutput * option error) : IPlugin :=
  {| Initialize := Returned None;
     Cleanup := Returned cleanup;
     GetMetadata := noMetadata;
     PreToolUse := fun arg => Returned (f arg);
     PostToolUse := PostToolUse (UnimplementedPlugin noMetadata);
     Notification := Notification (UnimplementedPlugin noMetadata);
     Stop := Stop (UnimplementedPlugin noMetadata);
     SubagentStop := SubagentStop (UnimplementedPlugin noMetadata) |}.

(** No opinion on anything. *)
Definition silent : IPlugin := onPreToolUse None (fun _ => (None, None)).

(** Blocks the file [.env], has no opinion otherwise; its [Cleanup]
    fails. *)
Definition denyDotEnv : IPlugin :=
  onPreToolUse (Some "busy") (fun arg =>
    if String.eqb (GetFilePath arg) ".env"
    then (Some (PreToolUseOutput_Approve false
                  ["Access to .env files is not allowed. File: .env"] new), None)
    else (None, None)).

(** Returns an error, together with a verdict that blocks. *)
Definition failing : IPlugin :=
  onPreToolUse None (fun _ =>
    (Some (PreToolUseOutput_Approve false ["never read"] new), Some "gopls: not found")).

(** Blocks with a reason that is one byte, 0xFF: not valid UTF-8. *)
Definition rawReason : string := String "255"%char "".
Definition blockRaw : IPlugin :=
  onPreToolUse None (fun _ =>
    (Some (PreToolUseOutput_Approve false [rawReason] new), None)).

(** A registry holding [denyDotEnv] under the name [env.so]. *)
Definition oneEnv : PluginManager :=
  {| plugins := {[ "env.so" := denyDotEnv ]};
     pluginPaths := {[ "env.so" := "/home/u/.claude/hooks/env.so" ]};
     pluginDir := "" |}.
(** *** Samples for the further properties *)

(** A notification, and decoders that know it.  Every typed decoder
    accepts it: fields a type does not have are skipped, fields the event
    does not have stay zero. *)
Definition notificationEvent : json :=
  JObject [ ("hook_event_name", JString "Notification");
            ("message", JString "done") ].

Definition notificationBase : BaseHookInput :=
  {| SessionID := ""; TranscriptPath := ""; HookEventName := "Notification" |}.

Definition notificationLib : JSONLib :=
  {| Unmarshal_input := fun data =>
       if String.eqb data (encoding_json.text notificationEvent)
       then encoding_json.Unmarshal_map notificationEvent
       else inl "invalid character";
     Marshal_input := fun _ => inr (encoding_json.text notificationEvent);
     Unmarshal_ToolInput :=
       only notificationEvent
         {| ToolInput_BaseHookInput := notificationBase; ToolName := "";
            ToolInput_ToolInput := ∅ |};
     Unmarshal_PostToolUseInput :=
       only notificationEvent
         {| PostToolUseInput_ToolInput :=
              {| ToolInput_BaseHookInput := notificationBase; ToolName := "";
                 ToolInput_ToolInput := ∅ |};
            ToolResponse := ∅ |};
     Unmarshal_NotificationInput :=
       only notificationEvent
         {| NotificationInput_BaseHookInput := notificationBase; Message := "done" |};
     Unmarshal_StopInput :=
       only notificationEvent
         {| StopInput_BaseHookInput := notificationBase;
            StopInput_StopHookActive := false |};
     Unmarshal_SubagentStopInput :=
       only notificationEvent
         {| SubagentStopInput_BaseHookInput := notificationBase;
            SubagentStopInput_StopHookActive := false |} |}.

(** An extension with no opinion on any kind of event. *)
Definition noOpinion : IPlugin :=
  {| Initialize := Returned None;
     Cleanup := Returned None;
     GetMetadata := noMetadata;
     PreToolUse := fun _ => Returned (None, None);
     PostToolUse := fun _ => Returned (None, None);
     Notification := fun _ => Returned (None, None);
     Stop := fun _ => Returned (None, None);
     SubagentStop := fun _ => Returned (None, None) |}.

(** Decoders for which the sample event is malformed as a [ToolInput]
    (say [tool_name] is a number). *)
Definition mistypedLib : JSONLib :=
  {| Unmarshal_input := Unmarshal_input (sampleLib dotEnvEvent);
     Marshal_input := Marshal_input (sampleLib dotEnvEvent);
     Unmarshal_ToolInput := fun _ =>
       inl "json: cannot unmarshal number into Go struct field ToolInput.tool_name of type string";
     Unmarshal_PostToolUseInput := Unmarshal_PostToolUseInput (sampleLib dotEnvEvent);
     Unmarshal_NotificationInput := Unmarshal_NotificationInput (sampleLib dotEnvEvent);
     Unmarshal_StopInput := Unmarshal_StopInput (sampleLib dotEnvEvent);
     Unmarshal_SubagentStopInput := Unmarshal_SubagentStopInput (sampleLib dotEnvEvent) |}.

(** A registry with two extensions; the [Cleanup] of [env.so] fails, the
    one of [quiet.so] succeeds. *)
Definition twoPlugins : PluginManager :=
  {| plugins := {[ "env.so" := denyDotEnv; "quiet.so" := noOpinion ]};
     pluginPaths := {[ "env.so" := "/home/u/.claude/hooks/env.so";
                       "quiet.so" := "/home/u/.claude/hooks/quiet.so" ]};
     pluginDir := "" |}.

(** A host with two shared objects in the default directory of the user
    [u]: [env.so] exports [New], [broken.so] cannot be opened. *)
Definition hooksDir : string := "/home/u/.claude/hooks".

Definition sampleHost : Host :=
  {| os_Stat := fun path =>
       if String.eqb path hooksDir
          || String.eqb path (hooksDir +:+ "/env.so")
          || String.eqb path (hooksDir +:+ "/broken.so")
       then Exists else NotExist;
     plugin_Open := fun path =>
       if String.eqb path (hooksDir +:+ "/env.so")
       then inr (fun symName =>
                   if String.eqb symName "New" then inr (Creator (Returned (Some denyDotEnv)))
                   else inl "symbol not found")
       else inl "plugin.Open: not a shared object";
     filepath_Abs := fun path => inr path;
     filepath_Base := fun path =>
       if String.eqb path (hooksDir +:+ "/env.so") then "env.so"
       else if String.eqb path (hooksDir +:+ "/broken.so") then "broken.so"
       else path;
     filepath_Join := fun elems => strings_Join elems "/";
     filepath_Glob := fun _ => inr [hooksDir +:+ "/broken.so"; hooksDir +:+ "/env.so"];
     os_UserHomeDir := inr "/home/u";
     strconv_Quote := fun s => String "034"%char s +:+ String "034"%char "" |}.

(** The registry after loading [env.so] on the sample host. *)
Definition envLoaded : PluginManager :=
  {| plugins := <["env.so" := denyDotEnv]> ∅;
     pluginPaths := <["env.so" := "/home/u/.claude/hooks/env.so"]> ∅;
     pluginDir := "" |}.

(** The registry for the directory [hooksDir] after [env.so] is loaded. *)
Definition envLoadedFromDir : PluginManager :=
  {| plugins := <["env.so" := denyDotEnv]> ∅;
     pluginPaths := <["env.so" := "/home/u/.claude/hooks/env.so"]> ∅;
     pluginDir := hooksDir |}.

Definition brokenError : string :=
  "failed to open plugin /home/u/.claude/hooks/broken.so: plugin.Open: not a shared object".

(** Two extensions with the metadata of the repository's [env] and
    [gocheck] extensions, and a registry that holds them. *)
Definition withMetadata (metadata : PluginMetadata) (plugin : IPlugin) : IPlugin :=
  {| Initialize := Initialize plugin;
     Cleanup := Cleanup plugin;
     GetMetadata := metadata;
     PreToolUse := PreToolUse plugin;
     PostToolUse := PostToolUse plugin;
     Notification := Notification plugin;
     Stop := Stop plugin;
     SubagentStop := SubagentStop plugin |}.

Definition envPlugin : IPlugin :=
  withMetadata {| Description := "no reading of .env files";
                  Matcher_PreToolUse := "Read|Write|Edit|MultiEdit";
                  Matcher_PostToolUse := "" |} denyDotEnv.

Definition gocheckPlugin : IPlugin :=
  withMetadata {| Description := "syntax check of edited go files";
                  Matcher_PreToolUse := "";
                  Matcher_PostToolUse := "Write|Edit|MultiEdit" |} noOpinion.

Definition bothLoaded : PluginManager :=
  {| plugins := <["env.so" := envPlugin]> (<["gocheck.so" := gocheckPlugin]> ∅);
     pluginPaths := <["env.so" := "/home/u/.claude/hooks/env.so"]>
                      (<["gocheck.so" := "/home/u/.claude/hooks/gocheck.so"]> ∅);
     pluginDir := "" |}.

Definition bothLoadedOrder : list (string * IPlugin) :=
  [ ("gocheck.so", gocheckPlugin); ("env.so", envPlugin) ].

(** Settings written by hand, and a grouping of two extensions by
    matcher. *)
Definition staleSettings : list HookConfig :=
  [ {| Matcher := "Bash";
       Hooks := [ {| HookEntry_Type := "command"; HookEntry_Command := "audit" |} ] |};
    {| Matcher := "Read|Write|Edit|MultiEdit";
       Hooks := [ {| HookEntry_Type := "command"; HookEntry_Command := "old" |} ] |} ].

Definition byMatcher : gmap string (list string) :=
  <["Read|Write|Edit|MultiEdit" := ["env.so"]]>
    (<["Write|Edit|MultiEdit" := ["gocheck.so"]]> ∅).

Definition byMatcherOrder : list (string * list string) :=
  [ ("Write|Edit|MultiEdit", ["gocheck.so"]);
    ("Read|Write|Edit|MultiEdit", ["env.so"]) ].

(** ** Proof steps *)

(** Membership in a list of known elements. *)
Ltac here_or_further :=
  repeat first [apply list_elem_of_here | apply list_elem_of_further].
Ltac each_member H :=
  repeat (apply elem_of_cons in H as [->|H]); [..|now apply elem_of_nil in H].

(** ** Properties *)

(** *** The file-path accessor *)

(** C10. [GetFilePath] is a total function of the event: when the tool
    arguments have no key [file_path], or map it to a value that is not a
    string, it is the empty string; when they map it to a string it is that
    string.  A [PostToolUse] event reaches the accessor through its
    embedded [ToolInput]. *)
Theorem GetFilePath_total (t : ToolInput) (p : PostToolUseInput) :
  let args := ToolInput_ToolInput t in
  (args !! "file_path" = None -> GetFilePath t = "")
  /\ (forall v, args !! "file_path" = Some v ->
                (forall s, v <> JString s) -> GetFilePath t = "")
  /\ (forall s, args !! "file_path" = Some (JString s) -> GetFilePath t = s)
  /\ GetFilePath (PostToolUseInput_ToolInput p)
     = match ToolInput_ToolInput (PostToolUseInput_ToolInput p) !! "file_path" with
       | Some (JString s) => s
       | _ => ""
       end.
Proof.
  unfold GetFilePath; cbn zeta.
  repeat split.
  - intros ->. reflexivity.
  - intros v -> Hv. destruct v; try reflexivity. now destruct (Hv s).
  - intros s ->. reflexivity.
Qed.

Lemma GetFilePath_total_witness :
  ToolInput_ToolInput dotEnvToolInput !! "file_path" = Some (JString ".env")
  /\ GetFilePath dotEnvToolInput = ".env".
Proof.
  assert (H : ToolInput_ToolInput dotEnvToolInput !! "file_path" = Some (JString ".env"))
    by reflexivity.
  split; [exact H|].
  exact (proj1 (proj2 (proj2
           (GetFilePath_total dotEnvToolInput
              {| PostToolUseInput_ToolInput := dotEnvToolInput; ToolResponse := ∅ |})))
         ".env" H).
Defined.

(** *** The exit translator *)

(** Whatever the result, [ExitWithMessage] writes nothing to standard
    output. *)
Lemma ExitWithMessage_stdout_empty (r : Result) :
  written Stdout (@ExitWithMessage unit r).1 = [].
Proof.
  unfold ExitWithMessage.
  destruct (IsSuccess r);
    [destruct (0 <? String.length (Data r))%nat
    |destruct (0 <? String.length (Error r))%nat]; reflexivity.
Qed.

(** C1, at the result [NewSuccess "ok"]: the payload of a success is
    written to standard error, standard output stays empty, and the
    process exits with 0. *)
Theorem ExitWithMessage_success_goes_to_stderr :
  @ExitWithMessage unit (NewSuccess "ok") = ([Fprintf Stderr "ok"], OsExit 0)
  /\ written Stdout (@ExitWithMessage unit (NewSuccess "ok")).1 = []
  /\ written Stderr (@ExitWithMessage unit (NewSuccess "ok")).1 = ["ok"].
Proof. repeat split. Qed.

(** *** Verdict constructors *)

Lemma callPreToolUse_keeps (o : PreToolUseOutput) (c : PreToolUseCall) :
  blockHasReason (unPreToolUseOutput o) ->
  blockHasReason (unPreToolUseOutput (callPreToolUse o c)).
Proof.
  unfold blockHasReason. destruct o as [d].
  destruct c as [|[] [|m0 msg]| |]; cbn; intros Hd Hblock;
    try discriminate; eauto.
Qed.

Lemma callPostToolUse_keeps (o : PostToolUseOutput) (c : PostToolUseCall) :
  blockHasReason (unPostToolUseOutput o) ->
  blockHasReason (unPostToolUseOutput (callPostToolUse o c)).
Proof.
  unfold blockHasReason. destruct o as [d].
  destruct c; cbn; intros Hd Hblock; eauto.
Qed.

Lemma callStop_keeps (o : StopOutput) (c : StopCall) :
  blockHasReason (unStopOutput o) ->
  blockHasReason (unStopOutput (callStop o c)).
Proof.
  unfold blockHasReason. destruct o as [d].
  destruct c; cbn; intros Hd Hblock; eauto.
Qed.

(** An invariant of every step is an invariant of the fold. *)
Lemma fold_left_invariant {A C} (step : A -> C -> A) (P : A -> Prop) :
  (forall a c, P a -> P (step a c)) ->
  forall calls a, P a -> P (fold_left step calls a).
Proof.
  intros Hstep calls. induction calls as [|c calls IH]; cbn; auto.
Qed.

(** C9, as the code has it.  On a verdict of a decision-bearing kind made
    with the methods of its type, [decision == "block"] implies that the
    reason is present.  The reason is the message the caller passed, kept
    as it is even when it is empty; the fallback [rejected] is stored only
    by [Approve(false)] called without a message. *)
Theorem block_implies_reason_present :
  (forall calls, blockHasReason (unPreToolUseOutput (madePreToolUse calls)))
  /\ (forall calls, blockHasReason (unPostToolUseOutput (madePostToolUse calls)))
  /\ (forall calls, blockHasReason (unStopOutput (madeStop calls)))
  /\ (forall o, Reason (unPreToolUseOutput (PreToolUseOutput_Approve false [] o))
                = Some "rejected")
  /\ (forall o m msg, Reason (unPreToolUseOutput (PreToolUseOutput_Approve false (m :: msg) o))
                      = Some m)
  /\ (forall o m, Reason (unPostToolUseOutput (PostToolUseOutput_Block m o)) = Some m)
  /\ (forall o m, Reason (unStopOutput (StopOutput_NotAllowed m o)) = Some m).
Proof.
  repeat split.
  - intros calls.
    apply (fold_left_invariant callPreToolUse (fun o => blockHasReason (unPreToolUseOutput o)));
      [exact callPreToolUse_keeps | discriminate].
  - intros calls.
    apply (fold_left_invariant callPostToolUse (fun o => blockHasReason (unPostToolUseOutput o)));
      [exact callPostToolUse_keeps | discriminate].
  - intros calls.
    apply (fold_left_invariant callStop (fun o => blockHasReason (unStopOutput o)));
      [exact callStop_keeps | discriminate].
Qed.

Lemma block_implies_reason_present_witness :
  Decision (unPreToolUseOutput (madePreToolUse [Pre_Default; Pre_Approve false []]))
  = Some "block"
  /\ is_Some (Reason (unPreToolUseOutput (madePreToolUse [Pre_Default; Pre_Approve false []]))).
Proof.
  assert (H : Decision (unPreToolUseOutput (madePreToolUse [Pre_Default; Pre_Approve false []]))
              = Some "block") by reflexivity.
  split; [exact H|].
  exact (proj1 block_implies_reason_present [Pre_Default; Pre_Approve false []] H).
Defined.

(** C9 as stated fails: [Block], [NotAllowed] and [Approve(false, msg)]
    called with the empty message give a verdict that blocks with a reason
    that is present and empty; nothing replaces it. *)
Lemma empty_reason_is_kept :
  let post := madePostToolUse [Post_Block ""] in
  let stop := madeStop [Stop_NotAllowed ""] in
  let pre := madePreToolUse [Pre_Approve false [""]] in
  (Decision (unPostToolUseOutput post) = Some "block"
   /\ Reason (unPostToolUseOutput post) = Some "")
  /\ (Decision (unStopOutput stop) = Some "block"
      /\ Reason (unStopOutput stop) = Some "")
  /\ (Decision (unPreToolUseOutput pre) = Some "block"
      /\ Reason (unPreToolUseOutput pre) = Some "").
Proof. repeat split. Qed.

(** *** The encoding of a verdict *)

(** A map filled member by member has no key that no member has. *)
Lemma fill_lookup_None (k : string) (members : list (string * json))
    (m : gmap string json) :
  k ∉ members.*1 -> m !! k = None ->
  fold_left (fun m kv => <[kv.1 := kv.2]> m) members m !! k = None.
Proof.
  revert m. induction members as [|[k' v] members IH]; cbn; intros m Hk Hm.
  - exact Hm.
  - apply not_elem_of_cons in Hk as [Hne Hk].
    apply IH; [exact Hk|]. rewrite lookup_insert_ne; auto.
Qed.

(** The keys [membersBaseHookOutput] writes. *)
Lemma membersBaseHookOutput_keys (o : BaseHookOutput) (k : string) :
  k ∈ (membersBaseHookOutput o).*1 ->
  k ∈ ["continue"; "stopReason"; "suppressOutput"].
Proof.
  unfold membersBaseHookOutput.
  destruct (Continue o), (String.eqb (StopReason o) ""), (SuppressOutput o);
    cbn; intros Hk; each_member Hk; here_or_further.
Qed.

(** Without a decision, [membersDecisionOutput] writes no key
    [decision]. *)
Lemma membersDecisionOutput_keys (d : DecisionOutput) (k : string) :
  Decision d = None ->
  k ∈ (membersDecisionOutput d).*1 ->
  k ∈ ["continue"; "stopReason"; "suppressOutput"; "reason"].
Proof.
  unfold membersDecisionOutput. intros ->.
  rewrite fmap_app, elem_of_app. intros [Hk|Hk].
  - apply membersBaseHookOutput_keys in Hk. each_member Hk; here_or_further.
  - destruct (Reason d); cbn in Hk; each_member Hk; here_or_further.
Qed.

(** The keys of an object read back are the keys written, coerced. *)
Lemma decoded_keys (members : list (string * json)) :
  (map (fun '(k, v) => (utf8.toValid k, encoding_json.decoded v)) members).*1
  = utf8.toValid <$> members.*1.
Proof.
  induction members as [|[k v] members IH]; cbn; [reflexivity|]. now rewrite IH.
Qed.

Lemma Unmarshal_map_object (members : list (string * json)) (k : string) :
  (forall k', k' ∈ members.*1 -> utf8.toValid k' <> k) ->
  exists m, encoding_json.Unmarshal_map (JObject members) = inr m /\ m !! k = None.
Proof.
  intros Hk. eexists. split; [reflexivity|].
  apply fill_lookup_None; [|apply lookup_empty].
  rewrite decoded_keys. intros Hin.
  apply list_elem_of_fmap in Hin as (k' & -> & Hin). now apply (Hk k').
Qed.

Lemma Unmarshal_map_DecisionOutput (d : DecisionOutput) :
  Decision d = None ->
  exists m, encoding_json.Unmarshal_map (JObject (membersDecisionOutput d)) = inr m
            /\ m !! "decision" = None.
Proof.
  intros Hd. apply Unmarshal_map_object. intros k' Hk'.
  apply (membersDecisionOutput_keys d k' Hd) in Hk'.
  repeat (apply elem_of_cons in Hk' as [->|Hk']; [vm_compute; discriminate|]).
  now apply elem_of_nil in Hk'.
Qed.

(** C8. A verdict whose decision was never set is encoded by
    [json.Marshal] into bytes that [json.Unmarshal] reads, as a
    [map[string]any], into a map without the key [decision]. *)
Theorem unset_decision_is_absent (v : any) :
  Decision_of v = None ->
  exists data m,
    json_Marshal v = inr data
    /\ encoding_json.Unmarshal_map data = inr m
    /\ m !! "decision" = None.
Proof.
  intros Hd.
  assert (Hnull : exists m : gmap string json,
             encoding_json.Unmarshal_map JNull = inr m /\ m !! "decision" = None)
    by (exists ∅; split; reflexivity).
  destruct v as [[[d]|]|[[d]|]|[o|]|[[d]|]|[d|]]; cbn in Hd |- *;
    try (destruct Hnull as (m & ? & ?); eexists _, m; split; [reflexivity|split; assumption]).
  all: try (destruct (Unmarshal_map_DecisionOutput d Hd) as (m & ? & ?);
            eexists _, m; split; [reflexivity|split; assumption]).
  destruct (Unmarshal_map_object (membersBaseHookOutput o) "decision") as (m & ? & ?).
  - intros k' Hk'. apply membersBaseHookOutput_keys in Hk'.
    repeat (apply elem_of_cons in Hk' as [->|Hk']; [vm_compute; discriminate|]).
    now apply elem_of_nil in Hk'.
  - eexists _, m; split; [reflexivity|split; assumption].
Qed.

Lemma unset_decision_is_absent_witness :
  let v := PostToolUseOutputPtr (Some (madePostToolUse [Post_Default])) in
  Decision_of v = None
  /\ exists data m,
       json_Marshal v = inr data
       /\ encoding_json.Unmarshal_map data = inr m
       /\ m !! "decision" = None.
Proof.
  assert (H : Decision_of (PostToolUseOutputPtr (Some (madePostToolUse [Post_Default]))) = None)
    by reflexivity.
  split; [exact H|].
  exact (unset_decision_is_absent _ H).
Defined.

(** *** One extension, one event *)

Lemma hookHandlers_recognized (lib : JSONLib) :
  hookHandlers lib !! "PreToolUse" = Some (handlePreToolUse lib)
  /\ hookHandlers lib !! "PostToolUse" = Some (handlePostToolUse lib)
  /\ hookHandlers lib !! "Notification" = Some (handleNotification lib)
  /\ hookHandlers lib !! "Stop" = Some (handleStop lib)
  /\ hookHandlers lib !! "SubagentStop" = Some (handleSubagentStop lib).
Proof. repeat split. Qed.

Lemma hookHandlers_unknown (lib : JSONLib) (hookType : string) :
  hookType ∉ recognized -> hookHandlers lib !! hookType = None.
Proof.
  intros Hnot. unfold hookHandlers, recognized in *. cbn.
  repeat (rewrite lookup_insert_ne;
          [|intros <-; apply Hnot; here_or_further]).
  apply lookup_empty.
Qed.

(** What [executePlugin] does when the extension answers. *)
Lemma executePlugin_answers (lib : JSONLib) (hookType inputData : string)
    (plugin : IPlugin) (m : method) (v : any) (err : option error) :
  answers lib inputData plugin hookType m v err ->
  executePlugin lib hookType inputData plugin
  = ([Invoke m], Return (processPluginResult (Some (defaulted v)) err)).
Proof.
  destruct 1 as [input result err Hin Hcall|input result err Hin Hcall
                |input result err Hin Hcall|input result err Hin Hcall
                |input result err Hin Hcall];
    unfold executePlugin;
    [ rewrite (proj1 (hookHandlers_recognized lib)); unfold handlePreToolUse
    | rewrite (proj1 (proj2 (hookHandlers_recognized lib))); unfold handlePostToolUse
    | rewrite (proj1 (proj2 (proj2 (hookHandlers_recognized lib)))); unfold handleNotification
    | rewrite (proj1 (proj2 (proj2 (proj2 (hookHandlers_recognized lib))))); unfold handleStop
    | rewrite (proj2 (proj2 (proj2 (proj2 (hookHandlers_recognized lib))))); unfold handleSubagentStop ];
    rewrite Hin, Hcall; reflexivity.
Qed.

(** C6. When an extension returns no verdict and no error for a
    [PreToolUse] event, the verdict [withDefault] makes in its place has
    the decision [approve] and [continue] set to true, and the result of
    the extension is a success, exit code 0, whose payload is that verdict
    encoded. *)
Theorem PreToolUse_default_approves (lib : JSONLib) (inputData : string)
    (plugin : IPlugin) (input : ToolInput) :
  Unmarshal_ToolInput lib inputData = inr input ->
  PreToolUse plugin input = Returned (None, None) ->
  exists v r,
    withDefault (None : option PreToolUseOutput) = Some v
    /\ Decision (unPreToolUseOutput v) = Some "approve"
    /\ Continue (DecisionOutput_BaseHookOutput (unPreToolUseOutput v)) = Some true
    /\ executePlugin lib "PreToolUse" inputData plugin = ([Invoke PreToolUse_], Return r)
    /\ r = NewSuccess (encoding_json.text
                         (JObject [ ("continue", JBool true);
                                    ("decision", JString "approve");
                                    ("reason", JString "") ]))
    /\ Code r = ExitCodeSuccess
    /\ (@ExitWithMessage unit r).2 = OsExit 0.
Proof.
  intros Hin Hcall.
  pose proof (executePlugin_answers lib "PreToolUse" inputData plugin _ _ _
                (answers_PreToolUse lib inputData plugin input None None Hin Hcall)) as Hrun.
  eexists _, _.
  split; [reflexivity|]. split; [reflexivity|]. split; [reflexivity|].
  split; [exact Hrun|]. repeat split.
Qed.

Lemma PreToolUse_default_approves_witness :
  exists v r,
    withDefault (None : option PreToolUseOutput) = Some v
    /\ Decision (unPreToolUseOutput v) = Some "approve"
    /\ Continue (DecisionOutput_BaseHookOutput (unPreToolUseOutput v)) = Some true
    /\ executePlugin (sampleLib dotEnvEvent) "PreToolUse" (encoding_json.text dotEnvEvent) silent
       = ([Invoke PreToolUse_], Return r)
    /\ r = NewSuccess (encoding_json.text
                         (JObject [ ("continue", JBool true);
                                    ("decision", JString "approve");
                                    ("reason", JString "") ]))
    /\ Code r = ExitCodeSuccess
    /\ (@ExitWithMessage unit r).2 = OsExit 0.
Proof.
  apply (PreToolUse_default_approves (sampleLib dotEnvEvent)
           (encoding_json.text dotEnvEvent) silent dotEnvToolInput);
    reflexivity.
Defined.

(** *** The registry *)

(** C3, as the code has it.  For a registered name, [UnloadPlugin] calls
    [Cleanup] on the instance first.  When [Cleanup] succeeds the instance
    leaves both maps and no error is returned; when [Cleanup] fails the
    failure is returned as an error and the registry is left as it was. *)
Theorem UnloadPlugin_after_Cleanup (pm : PluginManager) (name : string)
    (pluginInstance : IPlugin) :
  plugins pm !! name = Some pluginInstance ->
  (Cleanup pluginInstance = Returned None ->
   exists pm',
     UnloadPlugin name pm = ([Invoke Cleanup_], Return (pm', None))
     /\ plugins pm' = delete name (plugins pm)
     /\ pluginPaths pm' = delete name (pluginPaths pm)
     /\ plugins pm' !! name = None
     /\ pluginPaths pm' !! name = None)
  /\ (forall e, Cleanup pluginInstance = Returned (Some e) ->
      UnloadPlugin name pm
      = ([Invoke Cleanup_],
         Return (pm, Some ("failed to cleanup plugin " +:+ name +:+ ": " +:+ e)))).
Proof.
  intros Hreg. unfold UnloadPlugin. rewrite Hreg. split.
  - intros ->. eexists. split; [reflexivity|]. cbn.
    repeat split; apply lookup_delete_eq.
  - intros e ->. reflexivity.
Qed.

Lemma UnloadPlugin_after_Cleanup_witness :
  plugins oneEnv !! "env.so" = Some denyDotEnv
  /\ Cleanup denyDotEnv = Returned (Some "busy")
  /\ UnloadPlugin "env.so" oneEnv
     = ([Invoke Cleanup_],
        Return (oneEnv, Some "failed to cleanup plugin env.so: busy")).
Proof.
  assert (Hreg : plugins oneEnv !! "env.so" = Some denyDotEnv) by reflexivity.
  assert (Hfail : Cleanup denyDotEnv = Returned (Some "busy")) by reflexivity.
  split; [exact Hreg|]. split; [exact Hfail|].
  exact (proj2 (UnloadPlugin_after_Cleanup oneEnv "env.so" denyDotEnv Hreg) "busy" Hfail).
Defined.

(** C3 as stated fails: the instance registered as [env.so] has a
    [Cleanup] that fails, and after [UnloadPlugin] it is still in both
    maps. *)
Lemma failed_Cleanup_keeps_plugin :
  exists pm' err,
    UnloadPlugin "env.so" oneEnv = ([Invoke Cleanup_], Return (pm', Some err))
    /\ plugins pm' !! "env.so" = Some denyDotEnv
    /\ pluginPaths pm' !! "env.so" = Some "/home/u/.claude/hooks/env.so".
Proof. eexists _, _. repeat split. Qed.

(** A call that returns, followed by the rest of the computation. *)
Lemma bind_invoke_Returned {A B} (m : method) (a : A) (k : A -> proc B) :
  invoke m (Returned a) ≫= k = (Invoke m :: (k a).1, (k a).2).
Proof.
  unfold invoke, mbind, proc_bind. destruct (k a); reflexivity.
Qed.

(** The loop of [Shutdown] returns when every [Cleanup] does, with one
    call per instance. *)
Lemma cleanupAll_returns (order : list (string * IPlugin)) :
  Forall (fun entry => exists r, Cleanup entry.2 = Returned r) order ->
  forall errors, exists errors',
    cleanupAll order errors
    = (replicate (length order) (Invoke Cleanup_), Return errors').
Proof.
  induction 1 as [|[name p] order [r Hr] _ IH]; intros errors; cbn [cleanupAll].
  - eexists; reflexivity.
  - cbn in Hr. rewrite Hr, bind_invoke_Returned. cbn beta.
    edestruct IH as [errors' Heq]. rewrite Heq.
    eexists; reflexivity.
Qed.

Lemma ranges_emptied (pm : PluginManager) (order : list (string * IPlugin)) :
  ranges (emptied pm) order -> order = [].
Proof.
  unfold ranges, emptied; cbn. rewrite map_to_list_empty.
  apply Permutation_nil_r.
Qed.

(** C7. A first [Shutdown] in which every [Cleanup] returns, with or
    without an error, leaves both maps of the registry empty; a second
    [Shutdown] then calls nothing, returns no error and leaves them
    empty. *)
Theorem Shutdown_twice (pm : PluginManager) (order : list (string * IPlugin)) :
  ranges pm order ->
  Forall (fun entry => exists r, Cleanup entry.2 = Returned r) order ->
  exists err pm1,
    Shutdown order pm = (replicate (length order) (Invoke Cleanup_), Return (pm1, err))
    /\ plugins pm1 = ∅
    /\ pluginPaths pm1 = ∅
    /\ forall order2, ranges pm1 order2 ->
         Shutdown order2 pm1 = ([], Return (pm1, None)).
Proof.
  intros _ Hret. unfold Shutdown.
  destruct (cleanupAll_returns order Hret []) as [errors ->]. cbn.
  exists (if (0 <? length errors)%nat
          then Some ("shutdown errors: " +:+ strings_Join errors "; ") else None),
         (emptied pm).
  split; [|split; [reflexivity|split; [reflexivity|]]].
  - destruct errors; cbn; rewrite app_nil_r; reflexivity.
  - intros order2 Hrange. apply ranges_emptied in Hrange as ->. reflexivity.
Qed.

Lemma Shutdown_twice_witness :
  exists err pm1,
    Shutdown [("env.so", denyDotEnv)] oneEnv
    = ([Invoke Cleanup_], Return (pm1, err))
    /\ plugins pm1 = ∅
    /\ pluginPaths pm1 = ∅
    /\ forall order2, ranges pm1 order2 ->
         Shutdown order2 pm1 = ([], Return (pm1, None)).
Proof.
  apply (Shutdown_twice oneEnv [("env.so", denyDotEnv)]).
  - unfold ranges. cbn. rewrite map_to_list_singleton. reflexivity.
  - repeat constructor. eexists; reflexivity.
Defined.

(** *** The chain of extensions *)

Lemma bind_Return {A B} (t : list event) (a : A) (k : A -> proc B) :
  (t, Return a) ≫= k = (t ++ (k a).1, (k a).2).
Proof. unfold mbind, proc_bind. destruct (k a); reflexivity. Qed.

Lemma ExitWithMessage_exits {A} (r : Result) :
  (@ExitWithMessage A r).2 = OsExit (Code r).
Proof.
  unfold ExitWithMessage.
  destruct (IsSuccess r);
    [destruct (0 <? String.length (Data r))%nat
    |destruct (0 <? String.length (Error r))%nat]; reflexivity.
Qed.

(** What [ExitWithMessage] writes for a result that is not a success. *)
Lemma ExitWithMessage_failure {A} (r : Result) :
  IsSuccess r = false ->
  @ExitWithMessage A r
  = (if String.eqb (Error r) "" then [] else [Fprintf Stderr (Error r)], OsExit (Code r)).
Proof.
  unfold ExitWithMessage. intros ->. destruct (Error r); reflexivity.
Qed.

(** A handler that returns a success has called its method, once. *)
Lemma executePlugin_success (lib : JSONLib) (hookType inputData : string)
    (p q : IPlugin) (m : method) (v : any) (err : option error)
    (t : list event) (r : Result) :
  answers lib inputData p hookType m v err ->
  executePlugin lib hookType inputData q = (t, Return r) ->
  t = [Invoke m].
Proof.
  unfold executePlugin.
  destruct 1 as [input result err Hin _|input result err Hin _
                |input result err Hin _|input result err Hin _
                |input result err Hin _];
    [ rewrite (proj1 (hookHandlers_recognized lib)); unfold handlePreToolUse
    | rewrite (proj1 (proj2 (hookHandlers_recognized lib))); unfold handlePostToolUse
    | rewrite (proj1 (proj2 (proj2 (hookHandlers_recognized lib)))); unfold handleNotification
    | rewrite (proj1 (proj2 (proj2 (proj2 (hookHandlers_recognized lib))))); unfold handleStop
    | rewrite (proj2 (proj2 (proj2 (proj2 (hookHandlers_recognized lib))))); unfold handleSubagentStop ];
    rewrite Hin.
  - destruct (PreToolUse q input) as [[? ?]|]; cbn; congruence.
  - destruct (PostToolUse q input) as [[? ?]|]; cbn; congruence.
  - destruct (Notification q input) as [[? ?]|]; cbn; congruence.
  - destruct (Stop q input) as [[? ?]|]; cbn; congruence.
  - destruct (SubagentStop q input) as [[? ?]|]; cbn; congruence.
Qed.

(** The loop stops at the first extension whose result is not a success:
    the extensions before it have been called, those after it have not,
    and the process exits with that result. *)
Lemma forEachPlugin_stops (lib : JSONLib) (hookType inputData : string)
    (p : IPlugin) (m : method) (v : any) (err : option error) (post : list IPlugin) :
  answers lib inputData p hookType m v err ->
  IsSuccess (processPluginResult (Some (defaulted v)) err) = false ->
  forall pre lastResult,
    Forall (passes lib hookType inputData) pre ->
    forEachPlugin lib hookType inputData (pre ++ p :: post) lastResult
    = (replicate (S (length pre)) (Invoke m)
       ++ (@ExitWithMessage (option error) (processPluginResult (Some (defaulted v)) err)).1,
       OsExit (Code (processPluginResult (Some (defaulted v)) err))).
Proof.
  intros Hans Hfail pre. induction pre as [|q pre IH]; intros lastResult Hpre.
  - cbn [app forEachPlugin length replicate].
    rewrite (executePlugin_answers _ _ _ _ _ _ _ Hans), bind_Return. cbn beta.
    rewrite Hfail. cbn [negb]. rewrite ExitWithMessage_exits. reflexivity.
  - apply Forall_cons in Hpre as [(t & r & Hq & Hok) Hpre].
    cbn [app forEachPlugin length].
    rewrite Hq, bind_Return. cbn beta. rewrite Hok. cbn [negb].
    rewrite (IH (Some r) Hpre).
    rewrite (executePlugin_success _ _ _ _ _ _ _ _ _ _ Hans Hq). reflexivity.
Qed.

(** From [handleExecuteCommand] to its loop. *)
Lemma handleExecuteCommand_receives (lib : JSONLib) (stdin : error + string)
    (hookType inputData : string) (p : IPlugin) (plugins : list IPlugin) :
  receives lib stdin hookType inputData ->
  handleExecuteCommand lib (p :: plugins) stdin
  = forEachPlugin lib hookType inputData (p :: plugins) None.
Proof.
  intros (input & Hparse & Hkind & Hdata).
  unfold handleExecuteCommand. cbn [length Nat.eqb].
  rewrite Hparse, Hkind, Hdata. reflexivity.
Qed.

Lemma app_cons_is_cons {A} (pre : list A) (p : A) (post : list A) :
  exists q rest, pre ++ p :: post = q :: rest.
Proof. destruct pre; cbn; eauto. Qed.

(** C4. When the method of the extension at some place of the chain
    returns an error, with any verdict or none beside it, the result of
    that extension is [NewError] of the error text: exit code 1, the text
    as payload for standard error, whatever the verdict says.  The
    extensions after it are not called, and the process exits with 1. *)
Theorem error_stops_chain (lib : JSONLib) (stdin : error + string)
    (hookType inputData : string) (pre : list IPlugin) (p : IPlugin)
    (post : list IPlugin) (m : method) (v : any) (e : error) :
  receives lib stdin hookType inputData ->
  Forall (passes lib hookType inputData) pre ->
  answers lib inputData p hookType m v (Some e) ->
  executePlugin lib hookType inputData p
  = ([Invoke m], Return {| Code := ExitCodeError; Error := e; Data := "" |})
  /\ handleExecuteCommand lib (pre ++ p :: post) stdin
     = (replicate (S (length pre)) (Invoke m)
        ++ (if String.eqb e "" then [] else [Fprintf Stderr e]),
        OsExit ExitCodeError).
Proof.
  intros Hrecv Hpre Hans. split.
  - exact (executePlugin_answers _ _ _ _ _ _ _ Hans).
  - destruct (app_cons_is_cons pre p post) as (q & rest & Hcons).
    rewrite Hcons, (handleExecuteCommand_receives _ _ _ _ _ _ Hrecv), <- Hcons.
    rewrite (forEachPlugin_stops _ _ _ _ _ _ _ post Hans eq_refl pre None Hpre).
    cbn [processPluginResult].
    rewrite (ExitWithMessage_failure (NewError e) eq_refl). reflexivity.
Qed.

(** The sample decoders read the sample event. *)
Lemma sampleLib_receives :
  receives (sampleLib dotEnvEvent) (inr (encoding_json.text dotEnvEvent))
    "PreToolUse" (encoding_json.text dotEnvEvent).
Proof. eexists. repeat split. Qed.

Lemma silent_passes :
  passes (sampleLib dotEnvEvent) "PreToolUse" (encoding_json.text dotEnvEvent) silent.
Proof. eexists _, _. split; reflexivity. Qed.

Lemma error_stops_chain_witness :
  executePlugin (sampleLib dotEnvEvent) "PreToolUse" (encoding_json.text dotEnvEvent) failing
  = ([Invoke PreToolUse_],
     Return {| Code := ExitCodeError; Error := "gopls: not found"; Data := "" |})
  /\ handleExecuteCommand (sampleLib dotEnvEvent) ([silent] ++ failing :: [denyDotEnv])
       (inr (encoding_json.text dotEnvEvent))
     = ([Invoke PreToolUse_; Invoke PreToolUse_; Fprintf Stderr "gopls: not found"],
        OsExit ExitCodeError).
Proof.
  apply (error_stops_chain (sampleLib dotEnvEvent) (inr (encoding_json.text dotEnvEvent))
           "PreToolUse" (encoding_json.text dotEnvEvent) [silent] failing [denyDotEnv]
           PreToolUse_
           (PreToolUseOutputPtr (Some (PreToolUseOutput_Approve false ["never read"] new)))
           "gopls: not found").
  - exact sampleLib_receives.
  - constructor; [exact silent_passes|constructor].
  - apply (answers_PreToolUse _ _ _ dotEnvToolInput); reflexivity.
Defined.

(** ASCII text is valid UTF-8: it reads back as it was written. *)
Lemma toValid_ASCII (s : string) :
  utf8.isASCII s = true -> utf8.toValid s = s.
Proof.
  induction s as [|c t IH]; cbn [utf8.isASCII]; [reflexivity|].
  intros [Hc Ht]%andb_true_iff.
  unfold utf8.toValid in *. cbn [utf8.runes]. unfold utf8.first.
  rewrite Hc, (IH Ht). reflexivity.
Qed.

(** [checkBlockDecision] on the encoding of a verdict that blocks. *)
Lemma checkBlockDecision_block (d : DecisionOutput) :
  Decision d = Some "block" ->
  checkBlockDecision (JObject (membersDecisionOutput d))
  = Some {| Code := ExitCodeBlockingError;
            Error := utf8.toValid (default "" (Reason d)) +:+ LF;
            Data := "" |}.
Proof.
  intros Hd.
  unfold checkBlockDecision, encoding_json.Unmarshal_map,
    membersDecisionOutput, membersBaseHookOutput.
  rewrite Hd.
  destruct (Continue _), (String.eqb _ _), (SuppressOutput _), (Reason d);
    reflexivity.
Qed.

Lemma processPluginResult_block (v : any) :
  Decision_of v = Some "block" ->
  processPluginResult (Some (defaulted v)) None
  = {| Code := ExitCodeBlockingError;
       Error := utf8.toValid (default "" (Reason_of v)) +:+ LF;
       Data := "" |}.
Proof.
  unfold Decision_of, Reason_of.
  destruct v as [[[d]|]|[[d]|]|[o|]|[[d]|]|[d|]];
    cbn [DecisionOutput_of fmap option_fmap option_map mbind option_bind
           unPreToolUseOutput unPostToolUseOutput unStopOutput default];
    try discriminate;
    intros Hd;
    cbv beta iota delta [processPluginResult defaulted json_Marshal withDefault encodePtr
                           unPreToolUseOutput unPostToolUseOutput unStopOutput];
    rewrite (checkBlockDecision_block d Hd); reflexivity.
Qed.

(** C2, as the code has it.  When the extension at some place of the
    chain returns, without an error, a verdict whose decision is [block],
    its result has exit code 2 and, as payload for standard error, the
    reason as [json.Unmarshal] reads it back from the encoded verdict
    followed by one line feed: the reason itself wherever it is valid
    UTF-8, with U+FFFD in the place of every other byte, and the empty
    string when the verdict has no reason.  The extensions after it are
    not called, and the process exits with 2. *)
Theorem block_stops_chain (lib : JSONLib) (stdin : error + string)
    (hookType inputData : string) (pre : list IPlugin) (p : IPlugin)
    (post : list IPlugin) (m : method) (v : any) :
  receives lib stdin hookType inputData ->
  Forall (passes lib hookType inputData) pre ->
  answers lib inputData p hookType m v None ->
  Decision_of v = Some "block" ->
  let reason := utf8.toValid (default "" (Reason_of v)) in
  executePlugin lib hookType inputData p
  = ([Invoke m],
     Return {| Code := ExitCodeBlockingError; Error := reason +:+ LF; Data := "" |})
  /\ handleExecuteCommand lib (pre ++ p :: post) stdin
     = (replicate (S (length pre)) (Invoke m) ++ [Fprintf Stderr (reason +:+ LF)],
        OsExit ExitCodeBlockingError).
Proof.
  intros Hrecv Hpre Hans Hblock reason.
  pose proof (processPluginResult_block v Hblock) as Hres. split.
  - rewrite (executePlugin_answers _ _ _ _ _ _ _ Hans), Hres. reflexivity.
  - destruct (app_cons_is_cons pre p post) as (q & rest & Hcons).
    rewrite Hcons, (handleExecuteCommand_receives _ _ _ _ _ _ Hrecv), <- Hcons.
    rewrite (forEachPlugin_stops _ _ _ _ _ _ _ post Hans); [|now rewrite Hres|exact Hpre].
    rewrite Hres, ExitWithMessage_failure by reflexivity.
    cbn [Error Code]. subst reason.
    destruct (utf8.toValid (default "" (Reason_of v))); reflexivity.
Qed.

Lemma block_stops_chain_witness :
  let reason := "Access to .env files is not allowed. File: .env" in
  executePlugin (sampleLib dotEnvEvent) "PreToolUse" (encoding_json.text dotEnvEvent) denyDotEnv
  = ([Invoke PreToolUse_],
     Return {| Code := ExitCodeBlockingError; Error := reason +:+ LF; Data := "" |})
  /\ handleExecuteCommand (sampleLib dotEnvEvent) ([silent] ++ denyDotEnv :: [failing])
       (inr (encoding_json.text dotEnvEvent))
     = ([Invoke PreToolUse_; Invoke PreToolUse_; Fprintf Stderr (reason +:+ LF)],
        OsExit ExitCodeBlockingError).
Proof.
  apply (block_stops_chain (sampleLib dotEnvEvent) (inr (encoding_json.text dotEnvEvent))
           "PreToolUse" (encoding_json.text dotEnvEvent) [silent] denyDotEnv [failing]
           PreToolUse_
           (PreToolUseOutputPtr
              (Some (PreToolUseOutput_Approve false
                       ["Access to .env files is not allowed. File: .env"] new)))).
  - exact sampleLib_receives.
  - constructor; [exact silent_passes|constructor].
  - apply (answers_PreToolUse _ _ _ dotEnvToolInput); reflexivity.
  - reflexivity.
Defined.

(** C2 as stated fails: [blockRaw] blocks with the reason 0xFF, and the
    payload is U+FFFD and a line feed, not that reason and a line feed. *)
Lemma block_reason_is_coerced :
  receives (sampleLib dotEnvEvent) (inr (encoding_json.text dotEnvEvent))
    "PreToolUse" (encoding_json.text dotEnvEvent)
  /\ answers (sampleLib dotEnvEvent) (encoding_json.text dotEnvEvent) blockRaw
       "PreToolUse" PreToolUse_
       (PreToolUseOutputPtr (Some (PreToolUseOutput_Approve false [rawReason] new))) None
  /\ executePlugin (sampleLib dotEnvEvent) "PreToolUse" (encoding_json.text dotEnvEvent) blockRaw
     = ([Invoke PreToolUse_],
        Return {| Code := ExitCodeBlockingError;
                  Error := utf8.RuneError +:+ LF; Data := "" |})
  /\ handleExecuteCommand (sampleLib dotEnvEvent) [blockRaw]
       (inr (encoding_json.text dotEnvEvent))
     = ([Invoke PreToolUse_; Fprintf Stderr (utf8.RuneError +:+ LF)],
        OsExit ExitCodeBlockingError)
  /\ utf8.RuneError +:+ LF <> rawReason +:+ LF.
Proof.
  split; [exact sampleLib_receives|].
  split; [apply (answers_PreToolUse _ _ _ dotEnvToolInput); reflexivity|].
  repeat split. discriminate.
Qed.

(** *** Events of no recognized kind *)

(** [main] on an error that [handleExecuteCommand] returns. *)
Lemma main_execute_error (lib : JSONLib) (plugins : list IPlugin)
    (stdin : error + string) (e : error) :
  handleExecuteCommand lib plugins stdin = ([], Return (Some e)) ->
  exists t, main_execute lib plugins stdin = (t, OsExit ExitCodeError)
            /\ invocations t = []
            /\ written Stderr t = ["error: " +:+ e +:+ LF].
Proof.
  intros Hret. unfold main_execute. rewrite Hret.
  eexists. split; [reflexivity|]. split; reflexivity.
Qed.

(** C5. An event whose kind tag [hook_event_name] is missing, is not a
    string, or is a string other than the five recognized ones ends the
    process with exit code 1, and no method of any extension is called. *)
Theorem unrecognized_kind_exits_1 (lib : JSONLib) (plugins : list IPlugin)
    (stdin : error + string) (input : gmap string json) :
  readAndParseInput lib stdin = inr input ->
  (forall hookType, input !! "hook_event_name" = Some (JString hookType) ->
                    hookType ∉ recognized) ->
  exists t, main_execute lib plugins stdin = (t, OsExit ExitCodeError)
            /\ invocations t = []
            /\ status (main_execute lib plugins stdin).2 = 1.
Proof.
  intros Hparse Hkind.
  assert (Herr : forall e,
             handleExecuteCommand lib plugins stdin = ([], Return (Some e)) ->
             exists t, main_execute lib plugins stdin = (t, OsExit ExitCodeError)
                       /\ invocations t = []
                       /\ status (main_execute lib plugins stdin).2 = 1).
  { intros e He. destruct (main_execute_error lib plugins stdin e He) as (t & Hrun & Hinv & _).
    exists t. rewrite Hrun. repeat split; assumption. }
  destruct plugins as [|p plugins]; [apply (Herr "no plugins loaded"); reflexivity|].
  revert Herr. unfold main_execute, handleExecuteCommand.
  cbn [length Nat.eqb]. rewrite Hparse. unfold extractHookType.
  destruct (input !! "hook_event_name") as [[]|] eqn:Htag;
    try (intros Herr; eapply Herr; reflexivity).
  destruct (Marshal_input lib input) as [e|inputData];
    [intros Herr; eapply Herr; reflexivity|intros _].
  cbn [forEachPlugin]. unfold executePlugin.
  rewrite (hookHandlers_unknown lib s (Hkind s eq_refl)).
  eexists. split; [reflexivity|]. split; reflexivity.
Qed.

Lemma unrecognized_kind_exits_1_witness :
  exists t,
    main_execute (sampleLib strangeEvent) [silent; denyDotEnv]
      (inr (encoding_json.text strangeEvent))
    = (t, OsExit ExitCodeError)
    /\ invocations t = []
    /\ status (main_execute (sampleLib strangeEvent) [silent; denyDotEnv]
                 (inr (encoding_json.text strangeEvent))).2 = 1.
Proof.
  apply (unrecognized_kind_exits_1 (sampleLib strangeEvent) [silent; denyDotEnv]
           (inr (encoding_json.text strangeEvent))
           {[ "hook_event_name" := JString "PreCompact" ]}).
  - reflexivity.
  - intros hookType Htag.
    rewrite lookup_singleton_eq in Htag. injection Htag as <-.
    unfold recognized. intros Hin.
    repeat (apply elem_of_cons in Hin as [Hin|Hin]; [discriminate|]).
    now apply elem_of_nil in Hin.
Defined.


(** ** Further properties *)

(** *** Results of one extension *)

(** Only the text [block] reads back as [block]. *)
Lemma toValid_ASCII_inv (s : string) :
  utf8.isASCII (utf8.toValid s) = true -> utf8.toValid s = s.
Proof.
  unfold utf8.toValid.
  induction s as [|c0 t0 IH]; [reflexivity|].
  cbn [utf8.runes]. unfold utf8.first.
  destruct (N_of_ascii c0 <? 128)%N eqn:H0.
  - cbn [utf8.isASCII]. rewrite H0. cbn [andb]. intros H. now rewrite (IH H).
  - assert (Hbad : forall rest, utf8.isASCII (utf8.RuneError +:+ rest) = true -> False)
      by (intros rest; cbn; discriminate).
    assert (Hc0 : forall rest, utf8.isASCII (String c0 rest) = true -> False)
      by (intros rest; cbn [utf8.isASCII]; rewrite H0; discriminate).
    repeat match goal with
           | |- context [if ?b then _ else _] => destruct b
           | |- context [match ?t with EmptyString => _ | String _ _ => _ end] => destruct t
           end;
      intros H; exfalso;
      first [exact (Hbad _ H) | exact (Hc0 _ H)].
Qed.

Lemma toValid_block (s : string) : utf8.toValid s = "block" <-> s = "block".
Proof.
  split; [|intros ->; reflexivity].
  intros H. rewrite <- (toValid_ASCII_inv s); [exact H|]. now rewrite H.
Qed.

(** [checkBlockDecision] on any encoded decision-bearing verdict. *)
Lemma checkBlockDecision_DecisionOutput (d : DecisionOutput) :
  checkBlockDecision (JObject (membersDecisionOutput d))
  = match Decision d with
    | Some decision =>
        if String.eqb (utf8.toValid decision) "block"
        then Some {| Code := ExitCodeBlockingError;
                     Error := utf8.toValid (default "" (Reason d)) +:+ LF;
                     Data := "" |}
        else None
    | None => None
    end.
Proof.
  unfold checkBlockDecision, encoding_json.Unmarshal_map,
    membersDecisionOutput, membersBaseHookOutput.
  destruct (Continue _), (String.eqb (StopReason _) _), (SuppressOutput _),
    (Decision d), (Reason d); reflexivity.
Qed.

Lemma checkBlockDecision_BaseHookOutput (o : BaseHookOutput) :
  checkBlockDecision (JObject (membersBaseHookOutput o)) = None.
Proof.
  unfold checkBlockDecision, encoding_json.Unmarshal_map, membersBaseHookOutput.
  destruct (Continue _), (String.eqb (StopReason _) _), (SuppressOutput _); reflexivity.
Qed.

(** [checkBlockDecision] finds a block exactly in a verdict that decides
    [block]. *)
Lemma checkBlockDecision_encoded (v : any) :
  checkBlockDecision (encoded v)
  = if bool_decide (Decision_of v = Some "block")
    then Some {| Code := ExitCodeBlockingError;
                 Error := utf8.toValid (default "" (Reason_of v)) +:+ LF;
                 Data := "" |}
    else None.
Proof.
  assert (Hd : forall d : DecisionOutput,
             checkBlockDecision (JObject (membersDecisionOutput d))
             = if bool_decide (Decision d = Some "block")
               then Some {| Code := ExitCodeBlockingError;
                            Error := utf8.toValid (default "" (Reason d)) +:+ LF;
                            Data := "" |}
               else None).
  { intros d. rewrite checkBlockDecision_DecisionOutput.
    destruct (Decision d) as [decision|]; [|reflexivity].
    destruct (String.eqb_spec (utf8.toValid decision) "block") as [Heq|Hne].
    - apply toValid_block in Heq as ->. reflexivity.
    - rewrite bool_decide_eq_false_2; [reflexivity|].
      intros [= ->]. now apply Hne. }
  destruct v as [[[d]|]|[[d]|]|[o|]|[[d]|]|[d|]];
    try reflexivity; try apply Hd.
  apply checkBlockDecision_BaseHookOutput.
Qed.

Lemma json_Marshal_encoded (v : any) : json_Marshal v = inr (encoded v).
Proof. reflexivity. Qed.

Lemma processPluginResult_encoded (v : any) :
  processPluginResult (Some v) None
  = if bool_decide (Decision_of v = Some "block")
    then {| Code := ExitCodeBlockingError;
            Error := utf8.toValid (default "" (Reason_of v)) +:+ LF;
            Data := "" |}
    else NewSuccess (encoding_json.text (encoded v)).
Proof.
  unfold processPluginResult. rewrite json_Marshal_encoded, checkBlockDecision_encoded.
  destruct (bool_decide _); reflexivity.
Qed.

(** X1. The exit code of the result of one extension tells the three
    cases apart: 1 exactly when the method returned an error, 2 exactly
    when it returned no error and a verdict whose decision is [block], 0
    in every other case; a result with code 0 carries the encoded verdict
    as payload and no error text. *)
Theorem processPluginResult_classifies (v : any) (err : option error) :
  let r := processPluginResult (Some v) err in
  (Code r = ExitCodeError <-> err <> None)
  /\ (Code r = ExitCodeBlockingError <-> err = None /\ Decision_of v = Some "block")
  /\ (Code r = ExitCodeSuccess <-> err = None /\ Decision_of v <> Some "block")
  /\ (Code r = ExitCodeSuccess ->
      Data r = encoding_json.text (encoded v) /\ Error r = "").
Proof.
  destruct err as [e|]; cbn zeta.
  - cbn. repeat split; try discriminate; try (intros [? _]; discriminate).
  - rewrite processPluginResult_encoded.
    destruct (bool_decide_reflect (Decision_of v = Some "block")) as [Hb|Hb]; cbn.
    + repeat split; try discriminate; try tauto; try (intros [_ ?]; tauto).
    + repeat split; try discriminate; try tauto; try (intros [_ ?]; tauto).
Qed.

(** X2. An extension that returns neither a verdict nor an error never
    yields an empty payload: the result is a success whose payload is the
    default verdict of the kind, encoded, for [PreToolUse], [PostToolUse]
    and [Stop], and the four bytes [null] for [Notification] and
    [SubagentStop], where the [nil] pointer is encoded as it is. *)
Theorem no_opinion_payload (lib : JSONLib) (hookType inputData : string)
    (plugin : IPlugin) (m : method) (v : any) :
  answers lib inputData plugin hookType m v None ->
  isNil v = true ->
  executePlugin lib hookType inputData plugin
  = ([Invoke m], Return (NewSuccess (noOpinionPayload hookType)))
  /\ noOpinionPayload hookType <> "".
Proof.
  intros Hans Hnil. rewrite (executePlugin_answers _ _ _ _ _ _ _ Hans).
  remember (@None error) as none eqn:Hnone in Hans. revert Hnil Hnone.
  destruct Hans as [input [result|] err _ _|input [result|] err _ _
                   |input [result|] err _ _|input [result|] err _ _
                   |input [result|] err _ _];
    intros Hnil ->; try discriminate Hnil; split; first [reflexivity | discriminate].
Qed.

Lemma no_opinion_payload_witness :
  executePlugin notificationLib "Notification" (encoding_json.text notificationEvent) noOpinion
  = ([Invoke Notification_], Return (NewSuccess (noOpinionPayload "Notification")))
  /\ noOpinionPayload "Notification" <> "".
Proof.
  apply (no_opinion_payload notificationLib "Notification"
           (encoding_json.text notificationEvent) noOpinion Notification_
           (BaseHookOutputPtr None)).
  - apply (answers_Notification _ _ _
             {| NotificationInput_BaseHookInput := notificationBase; Message := "done" |});
      reflexivity.
  - reflexivity.
Defined.

(** *** The whole dispatch *)

Lemma ExitWithMessage_payload {A} (r : Result) :
  @ExitWithMessage A r
  = (payloadWritten (if IsSuccess r then Data r else Error r), OsExit (Code r)).
Proof.
  unfold ExitWithMessage, payloadWritten.
  destruct (IsSuccess r); [destruct (Data r)|destruct (Error r)]; reflexivity.
Qed.

(** X3. When the typed decoding of the event fails, no extension is
    called: the first handler returns [NewError] with the text [invalid
    <kind> input:] and the error of the decoder, and the process exits
    with 1 after writing that text to standard error. *)
Theorem decode_failure_calls_nothing (lib : JSONLib) (stdin : error + string)
    (hookType inputData : string) (e : error) (p : IPlugin) (plugins : list IPlugin) :
  receives lib stdin hookType inputData ->
  undecodable lib inputData hookType e ->
  let msg := "invalid " +:+ hookType +:+ " input: " +:+ e in
  executePlugin lib hookType inputData p = ([], Return (NewError msg))
  /\ handleExecuteCommand lib (p :: plugins) stdin
     = ([Fprintf Stderr msg], OsExit ExitCodeError).
Proof.
  intros Hrecv Hbad msg.
  assert (Hexec : executePlugin lib hookType inputData p = ([], Return (NewError msg))).
  { subst msg. unfold executePlugin.
    destruct Hbad as [e He|e He|e He|e He|e He];
      [ rewrite (proj1 (hookHandlers_recognized lib)); unfold handlePreToolUse
      | rewrite (proj1 (proj2 (hookHandlers_recognized lib))); unfold handlePostToolUse
      | rewrite (proj1 (proj2 (proj2 (hookHandlers_recognized lib))));
        unfold handleNotification
      | rewrite (proj1 (proj2 (proj2 (proj2 (hookHandlers_recognized lib)))));
        unfold handleStop
      | rewrite (proj2 (proj2 (proj2 (proj2 (hookHandlers_recognized lib)))));
        unfold handleSubagentStop ];
      rewrite He; reflexivity. }
  split; [exact Hexec|].
  rewrite (handleExecuteCommand_receives _ _ _ _ _ _ Hrecv).
  cbn [forEachPlugin]. rewrite Hexec, bind_Return. cbn beta.
  cbn [IsSuccess NewError Code negb Z.eqb ExitCodeError ExitCodeSuccess].
  rewrite ExitWithMessage_payload. cbn [app fst snd].
  subst msg. destruct Hbad; reflexivity.
Qed.

Lemma decode_failure_calls_nothing_witness :
  let msg :=
    "invalid PreToolUse input: json: cannot unmarshal number into Go struct field ToolInput.tool_name of type string" in
  executePlugin mistypedLib "PreToolUse" (encoding_json.text dotEnvEvent) denyDotEnv
  = ([], Return (NewError msg))
  /\ handleExecuteCommand mistypedLib (denyDotEnv :: [silent])
       (inr (encoding_json.text dotEnvEvent))
     = ([Fprintf Stderr msg], OsExit ExitCodeError).
Proof.
  apply (decode_failure_calls_nothing mistypedLib (inr (encoding_json.text dotEnvEvent))
           "PreToolUse" (encoding_json.text dotEnvEvent)
           "json: cannot unmarshal number into Go struct field ToolInput.tool_name of type string"
           denyDotEnv [silent]).
  - eexists. repeat split.
  - constructor. reflexivity.
Defined.

(** The three things [executePlugin] can do: refuse without calling the
    extension, call it and turn its answer into a result, or be unwound by
    its panic. *)
Lemma executePlugin_cases (lib : JSONLib) (hookType inputData : string) (q : IPlugin) :
  (exists msg, executePlugin lib hookType inputData q = ([], Return (NewError msg)))
  \/ (exists m v err,
        answers lib inputData q hookType m v err
        /\ executePlugin lib hookType inputData q
           = ([Invoke m], Return (processPluginResult (Some (defaulted v)) err)))
  \/ (exists m panic,
        executePlugin lib hookType inputData q = ([Invoke m], GoPanic panic)).
Proof.
  destruct (decide (hookType ∈ recognized)) as [Hin|Hnot].
  - unfold recognized in Hin. unfold executePlugin. each_member Hin;
      [ rewrite (proj1 (hookHandlers_recognized lib)); unfold handlePreToolUse;
        destruct (Unmarshal_ToolInput lib inputData) as [e|input] eqn:Hin';
        [|destruct (PreToolUse q input) as [[res err]|] eqn:Hcall]
      | rewrite (proj1 (proj2 (hookHandlers_recognized lib))); unfold handlePostToolUse;
        destruct (Unmarshal_PostToolUseInput lib inputData) as [e|input] eqn:Hin';
        [|destruct (PostToolUse q input) as [[res err]|] eqn:Hcall]
      | rewrite (proj1 (proj2 (proj2 (hookHandlers_recognized lib))));
        unfold handleNotification;
        destruct (Unmarshal_NotificationInput lib inputData) as [e|input] eqn:Hin';
        [|destruct (Notification q input) as [[res err]|] eqn:Hcall]
      | rewrite (proj1 (proj2 (proj2 (proj2 (hookHandlers_recognized lib)))));
        unfold handleStop;
        destruct (Unmarshal_StopInput lib inputData) as [e|input] eqn:Hin';
        [|destruct (Stop q input) as [[res err]|] eqn:Hcall]
      | rewrite (proj2 (proj2 (proj2 (proj2 (hookHandlers_recognized lib)))));
        unfold handleSubagentStop;
        destruct (Unmarshal_SubagentStopInput lib inputData) as [e|input] eqn:Hin';
        [|destruct (SubagentStop q input) as [[res err]|] eqn:Hcall] ];
      first [ left; eexists; reflexivity
            | right; left; eexists _, _, _; split; [econstructor; eassumption|reflexivity]
            | right; right; eexists _, _; reflexivity ].
  - left. unfold executePlugin. rewrite (hookHandlers_unknown lib hookType Hnot).
    eexists; reflexivity.
Qed.

(** An extension that passes has answered, without an error. *)
Lemma passes_answers (lib : JSONLib) (hookType inputData : string) (q : IPlugin) :
  passes lib hookType inputData q ->
  exists m v r,
    answers lib inputData q hookType m v None
    /\ executePlugin lib hookType inputData q = ([Invoke m], Return r)
    /\ IsSuccess r = true.
Proof.
  intros (t & r & Hrun & Hok).
  destruct (executePlugin_cases lib hookType inputData q)
    as [[msg H]|[(m & v & err & Hans & H)|(m & panic & H)]];
    rewrite H in Hrun; try discriminate Hrun.
  - injection Hrun as <- <-. discriminate Hok.
  - injection Hrun as <- <-. destruct err as [e|]; [discriminate Hok|].
    exists m, v. eexists. split; [exact Hans|]. split; [exact H|exact Hok].
Qed.

(** The loop over extensions that all pass: each is called once, and the
    process exits with the result of the last one. *)
Lemma forEachPlugin_all_pass (lib : JSONLib) (hookType inputData : string)
    (last : IPlugin) (m : method) (r : Result) (v : any) :
  answers lib inputData last hookType m v None ->
  executePlugin lib hookType inputData last = ([Invoke m], Return r) ->
  IsSuccess r = true ->
  forall init lastResult,
    Forall (passes lib hookType inputData) init ->
    forEachPlugin lib hookType inputData (init ++ [last]) lastResult
    = (replicate (S (length init)) (Invoke m) ++ payloadWritten (Data r),
       OsExit ExitCodeSuccess).
Proof.
  intros Hans Hrun Hok init. induction init as [|q init IH]; intros lastResult Hinit.
  - cbn [app forEachPlugin length replicate].
    rewrite Hrun, bind_Return. cbn beta. rewrite Hok. cbn [negb forEachPlugin].
    rewrite ExitWithMessage_payload, Hok. cbn [fst snd].
    unfold IsSuccess in Hok. apply Z.eqb_eq in Hok. rewrite Hok. reflexivity.
  - apply Forall_cons in Hinit as [(t & rq & Hq & Hokq) Hinit].
    cbn [app forEachPlugin length].
    rewrite Hq, bind_Return. cbn beta. rewrite Hokq. cbn [negb].
    rewrite (IH (Some rq) Hinit).
    rewrite (executePlugin_success _ _ _ _ _ _ _ _ _ _ Hans Hq). reflexivity.
Qed.

(** X4. When every extension of the chain passes, each one is called
    exactly once, in order, and the process exits with 0 after writing the
    payload of the last extension alone: the results of the earlier ones
    are dropped. *)
Theorem all_pass_last_result_wins (lib : JSONLib) (stdin : error + string)
    (hookType inputData : string) (init : list IPlugin) (last : IPlugin) :
  receives lib stdin hookType inputData ->
  Forall (passes lib hookType inputData) (init ++ [last]) ->
  exists m r,
    executePlugin lib hookType inputData last = ([Invoke m], Return r)
    /\ IsSuccess r = true
    /\ handleExecuteCommand lib (init ++ [last]) stdin
       = (replicate (S (length init)) (Invoke m) ++ payloadWritten (Data r),
          OsExit ExitCodeSuccess).
Proof.
  intros Hrecv Hall. apply Forall_app in Hall as [Hinit Hlast].
  apply Forall_cons in Hlast as [Hlast _].
  destruct (passes_answers _ _ _ _ Hlast) as (m & v & r & Hans & Hrun & Hok).
  exists m, r. split; [exact Hrun|]. split; [exact Hok|].
  destruct (app_cons_is_cons init last []) as (q & rest & Hcons).
  rewrite Hcons, (handleExecuteCommand_receives _ _ _ _ _ _ Hrecv), <- Hcons.
  exact (forEachPlugin_all_pass _ _ _ _ _ _ _ Hans Hrun Hok init None Hinit).
Qed.

Lemma noOpinion_passes :
  passes notificationLib "Notification" (encoding_json.text notificationEvent) noOpinion.
Proof. eexists _, _. split; reflexivity. Qed.

Lemma all_pass_last_result_wins_witness :
  exists m r,
    executePlugin notificationLib "Notification" (encoding_json.text notificationEvent)
      noOpinion
    = ([Invoke m], Return r)
    /\ IsSuccess r = true
    /\ handleExecuteCommand notificationLib ([noOpinion; noOpinion] ++ [noOpinion])
         (inr (encoding_json.text notificationEvent))
       = (replicate 3 (Invoke m) ++ payloadWritten (Data r), OsExit ExitCodeSuccess).
Proof.
  apply (all_pass_last_result_wins notificationLib
           (inr (encoding_json.text notificationEvent)) "Notification"
           (encoding_json.text notificationEvent) [noOpinion; noOpinion] noOpinion).
  - eexists. repeat split.
  - repeat constructor; exact noOpinion_passes.
Defined.






(** *** More on the verdict constructors *)

Lemma setContinueIfNil_neverStops (o : BaseHookOutput) :
  neverStops o -> neverStops (setContinueIfNil o).
Proof. unfold neverStops. intros [H|H]; cbn; rewrite H; tauto. Qed.

Lemma callBaseHookOutput_neverStops (o : BaseHookOutput) (c : BaseHookOutputCall) :
  neverStops o -> neverStops (callBaseHookOutput o c).
Proof.
  destruct c; [apply setContinueIfNil_neverStops|intros H; exact H].
Qed.

Lemma callPreToolUse_neverStops (o : PreToolUseOutput) (c : PreToolUseCall) :
  neverStops (DecisionOutput_BaseHookOutput (unPreToolUseOutput o)) ->
  neverStops (DecisionOutput_BaseHookOutput (unPreToolUseOutput (callPreToolUse o c))).
Proof.
  destruct o as [d]. destruct c as [|[] msg| |]; cbn;
    first [apply setContinueIfNil_neverStops | intros H; exact H].
Qed.

Lemma callPostToolUse_neverStops (o : PostToolUseOutput) (c : PostToolUseCall) :
  neverStops (DecisionOutput_BaseHookOutput (unPostToolUseOutput o)) ->
  neverStops (DecisionOutput_BaseHookOutput (unPostToolUseOutput (callPostToolUse o c))).
Proof.
  destruct o as [d]. destruct c; cbn;
    first [apply setContinueIfNil_neverStops | intros H; exact H].
Qed.

Lemma callStop_neverStops (o : StopOutput) (c : StopCall) :
  neverStops (DecisionOutput_BaseHookOutput (unStopOutput o)) ->
  neverStops (DecisionOutput_BaseHookOutput (unStopOutput (callStop o c))).
Proof.
  destruct o as [d]. destruct c; cbn;
    first [apply setContinueIfNil_neverStops | intros H; exact H].
Qed.

(** X6. No method of a verdict sets [continue] to false.  On a verdict
    made from the zero value with the methods of its type, [continue] is
    unset or true; in particular [Stop(userMessage)] records the message
    and leaves the verdict continuing, so the encoded verdict never has
    [continue] false. *)
Theorem methods_never_stop :
  (forall calls, neverStops (madeBaseHookOutput calls))
  /\ (forall calls,
        neverStops (DecisionOutput_BaseHookOutput (unPreToolUseOutput (madePreToolUse calls))))
  /\ (forall calls,
        neverStops (DecisionOutput_BaseHookOutput (unPostToolUseOutput (madePostToolUse calls))))
  /\ (forall calls,
        neverStops (DecisionOutput_BaseHookOutput (unStopOutput (madeStop calls))))
  /\ (forall userMessage calls,
        let o := callBaseHookOutput (madeBaseHookOutput calls) (Base_Stop userMessage) in
        StopReason o = userMessage /\ Continue o = Some true
        /\ ("continue", JBool false) ∉ membersBaseHookOutput o).
Proof.
  assert (Hbase : forall calls, neverStops (madeBaseHookOutput calls)).
  { intros calls.
    apply (fold_left_invariant callBaseHookOutput neverStops);
      [exact callBaseHookOutput_neverStops|left; reflexivity]. }
  split; [exact Hbase|]. split; [|split; [|split]].
  - intros calls.
    apply (fold_left_invariant callPreToolUse
             (fun o => neverStops (DecisionOutput_BaseHookOutput (unPreToolUseOutput o))));
      [exact callPreToolUse_neverStops|left; reflexivity].
  - intros calls.
    apply (fold_left_invariant callPostToolUse
             (fun o => neverStops (DecisionOutput_BaseHookOutput (unPostToolUseOutput o))));
      [exact callPostToolUse_neverStops|left; reflexivity].
  - intros calls.
    apply (fold_left_invariant callStop
             (fun o => neverStops (DecisionOutput_BaseHookOutput (unStopOutput o))));
      [exact callStop_neverStops|left; reflexivity].
  - intros userMessage calls o. subst o. cbn [callBaseHookOutput].
    destruct (Hbase calls) as [H|H];
      unfold BaseHookOutput_Stop, membersBaseHookOutput; cbn; rewrite H; cbn;
      (split; [reflexivity|split; [reflexivity|]]);
      destruct (String.eqb userMessage ""), (SuppressOutput (madeBaseHookOutput calls));
      cbn; intros Hin;
      repeat (apply elem_of_cons in Hin as [Hin|Hin]; [discriminate Hin|]);
      now apply elem_of_nil in Hin.
Qed.

(** X7. [Default] is idempotent on the three kinds that have it and
    never changes a [continue] that is already set.  On a [PreToolUse]
    verdict it replaces whatever was decided, a block included, by
    [approve] with an empty reason; on [PostToolUse] and [Stop] it leaves
    decision and reason alone. *)
Theorem Default_idempotent :
  (forall o, PreToolUseOutput_Default (PreToolUseOutput_Default o)
             = PreToolUseOutput_Default o)
  /\ (forall o, PostToolUseOutput_Default (PostToolUseOutput_Default o)
                = PostToolUseOutput_Default o)
  /\ (forall o, StopOutput_Default (StopOutput_Default o) = StopOutput_Default o)
  /\ (forall d b,
        Continue (DecisionOutput_BaseHookOutput d) = Some b ->
        continueIfNil d = d)
  /\ (forall o,
        let d := unPreToolUseOutput (PreToolUseOutput_Default o) in
        Decision d = Some "approve" /\ Reason d = Some "")
  /\ (forall o,
        let d := unPostToolUseOutput (PostToolUseOutput_Default o) in
        Decision d = Decision (unPostToolUseOutput o)
        /\ Reason d = Reason (unPostToolUseOutput o))
  /\ (forall o,
        let d := unStopOutput (StopOutput_Default o) in
        Decision d = Decision (unStopOutput o)
        /\ Reason d = Reason (unStopOutput o)).
Proof.
  repeat split.
  - intros [[[[c|] s b] dec r]]; reflexivity.
  - intros [[[[c|] s b] dec r]]; reflexivity.
  - intros [[[[c|] s b] dec r]]; reflexivity.
  - intros [[c s b'] dec r] b. cbn. intros ->. reflexivity.
Qed.

(** *** More on the registry *)

(** X8. Unloading is local to one name.  Unloading a registered
    extension whose [Cleanup] succeeds leaves every other name in both
    maps as it was; unloading the same name again calls nothing, returns
    the error [plugin <name> not found] and changes nothing. *)
Theorem UnloadPlugin_twice (pm : PluginManager) (name : string)
    (pluginInstance : IPlugin) :
  plugins pm !! name = Some pluginInstance ->
  Cleanup pluginInstance = Returned None ->
  exists pm',
    UnloadPlugin name pm = ([Invoke Cleanup_], Return (pm', None))
    /\ (forall other, other <> name ->
          plugins pm' !! other = plugins pm !! other
          /\ pluginPaths pm' !! other = pluginPaths pm !! other)
    /\ UnloadPlugin name pm'
       = ([], Return (pm', Some ("plugin " +:+ name +:+ " not found"))).
Proof.
  intros Hreg Hok. unfold UnloadPlugin at 1. rewrite Hreg, Hok.
  eexists. split; [reflexivity|]. split.
  - intros other Hne. cbn. split; apply lookup_delete_ne; congruence.
  - unfold UnloadPlugin. cbn [plugins]. rewrite lookup_delete_eq. reflexivity.
Qed.

Lemma UnloadPlugin_twice_witness :
  exists pm',
    UnloadPlugin "quiet.so" twoPlugins = ([Invoke Cleanup_], Return (pm', None))
    /\ (forall other, other <> "quiet.so" ->
          plugins pm' !! other = plugins twoPlugins !! other
          /\ pluginPaths pm' !! other = pluginPaths twoPlugins !! other)
    /\ UnloadPlugin "quiet.so" pm'
       = ([], Return (pm', Some ("plugin " +:+ "quiet.so" +:+ " not found"))).
Proof.
  apply (UnloadPlugin_twice twoPlugins "quiet.so" noOpinion); reflexivity.
Defined.

(** The loop of [Shutdown] collects exactly the failures, in order. *)
Lemma cleanupAll_failures (order : list (string * IPlugin)) :
  Forall (fun entry => exists r, Cleanup entry.2 = Returned r) order ->
  forall errors,
    cleanupAll order errors
    = (replicate (length order) (Invoke Cleanup_),
       Return (errors ++ cleanupFailures order)).
Proof.
  induction 1 as [|[name p] order [r Hr] _ IH]; intros errors; cbn [cleanupAll].
  - cbn. now rewrite app_nil_r.
  - cbn in Hr. rewrite Hr, bind_invoke_Returned. cbn beta. rewrite IH.
    unfold cleanupFailures. cbn [omap list_omap fst snd length replicate]. rewrite Hr.
    destruct r as [e|]; [rewrite <- app_assoc|]; reflexivity.
Qed.

(** X9. [Shutdown] calls [Cleanup] once per instance and returns an
    error exactly when one of these calls failed; the error text is
    [shutdown errors:] followed by one message per failure, in the order
    of the loop, joined by a semicolon and a space. *)
Theorem Shutdown_reports_failures (pm : PluginManager) (order : list (string * IPlugin)) :
  Forall (fun entry => exists r, Cleanup entry.2 = Returned r) order ->
  exists err,
    Shutdown order pm
    = (replicate (length order) (Invoke Cleanup_), Return (emptied pm, err))
    /\ (err = None <-> Forall (fun entry => Cleanup entry.2 = Returned None) order)
    /\ (cleanupFailures order <> [] ->
        err = Some ("shutdown errors: " +:+ strings_Join (cleanupFailures order) "; ")).
Proof.
  intros Hret. unfold Shutdown. rewrite (cleanupAll_failures order Hret []).
  rewrite bind_Return. cbn beta. cbn [app].
  assert (Hnone : cleanupFailures order = []
                  <-> Forall (fun entry => Cleanup entry.2 = Returned None) order).
  { clear pm. induction Hret as [|[name p] order [r Hr] _ IH]; [split; constructor|].
    unfold cleanupFailures in *. cbn [omap list_omap fst snd] in *. rewrite Hr.
    destruct r as [e|]; cbn.
    - split; [discriminate|]. intros Hall. apply Forall_cons in Hall as [H _].
      cbn in H. congruence.
    - rewrite IH. split; [intros H; constructor; [exact Hr|exact H]|].
      intros Hall. now apply Forall_cons in Hall as [_ H]. }
  destruct (cleanupFailures order) as [|f fs] eqn:Hf; cbn.
  - exists None. rewrite app_nil_r. split; [reflexivity|]. split; [|congruence].
    split; [intros _; now apply Hnone|reflexivity].
  - eexists. rewrite app_nil_r. split; [reflexivity|]. split; [|reflexivity].
    split; [discriminate|]. intros Hall. apply Hnone in Hall. discriminate Hall.
Qed.

Lemma Shutdown_reports_failures_witness :
  exists err,
    Shutdown [("quiet.so", noOpinion); ("env.so", denyDotEnv)] twoPlugins
    = ([Invoke Cleanup_; Invoke Cleanup_], Return (emptied twoPlugins, err))
    /\ (err = None
        <-> Forall (fun entry => Cleanup entry.2 = Returned None)
              [("quiet.so", noOpinion); ("env.so", denyDotEnv)])
    /\ (cleanupFailures [("quiet.so", noOpinion); ("env.so", denyDotEnv)] <> [] ->
        err = Some "shutdown errors: failed to cleanup plugin env.so: busy").
Proof.
  apply (Shutdown_reports_failures twoPlugins
           [("quiet.so", noOpinion); ("env.so", denyDotEnv)]).
  repeat constructor; eexists; reflexivity.
Defined.

(** *** The command line *)

Lemma isCommand_nonempty (arg : string) : isCommand arg = true -> arg <> "".
Proof. intros H ->. discriminate H. Qed.

Lemma dirLoop_commandFrom (host : Host) (args : list string) (dir : string)
    (rest : list string) (i : nat) (cfg : config) :
  rest ⊆ args -> commandFrom args cfg ->
  commandFrom args (dirLoop host dir rest i cfg).2.
Proof.
  revert i cfg. induction rest as [|nextArg rest IH]; intros i cfg Hsub Hcfg;
    cbn [dirLoop]; [exact Hcfg|].
  assert (Hrest : rest ⊆ args) by (intros x Hx; apply Hsub; now right).
  destruct (isCommand nextArg) eqn:Hcmd.
  - right. cbn. split; [exact Hcmd|]. apply Hsub. left.
  - apply IH; [exact Hrest|].
    destruct (os_Stat host _); [exact Hcfg| |];
      destruct (negb _); exact Hcfg.
Qed.

Lemma switchCase_CommandWord (arg : string) :
  switchCase arg = CommandWord -> isCommand arg = true.
Proof.
  unfold switchCase.
  destruct (String.eqb arg "--help" || String.eqb arg "-h"); [discriminate|].
  destruct (String.eqb arg "--dir"); [discriminate|].
  destruct (isCommand arg); [reflexivity|].
  destruct (strings_HasSuffix arg ".so"); [discriminate|].
  destruct (negb _); discriminate.
Qed.

Lemma commandFrom_withPlugin (args : list string) (pluginPath : string) (cfg : config) :
  commandFrom args cfg -> commandFrom args (withPlugin pluginPath cfg).
Proof. intros H; exact H. Qed.

Lemma parseFrom_commandFrom (host : Host) (args : list string) (i : nat)
    (cfg cfg' : config) :
  commandFrom args cfg ->
  parseFrom host args i cfg = inr cfg' ->
  isCommand (config_command cfg') = true /\ config_command cfg' ∈ args.
Proof.
  funelim (parseFrom host args i cfg); intros Hcfg Hrun; clear Heqcall;
    try discriminate Hrun.
  - destruct (String.eqb_spec (config_command cfg) "") as [Hempty|Hset];
      [discriminate Hrun|]. injection Hrun as <-.
    destruct Hcfg as [Hcfg|Hcfg]; [contradiction|exact Hcfg].
  - eauto.
  - apply (H cfg'); [|exact Hrun]. right. cbn. split.
    + now apply switchCase_CommandWord.
    + eapply list_elem_of_lookup_2. exact Harg.
  - eauto using commandFrom_withPlugin.
  - apply (H cfg'); [|exact Hrun]. unfold parsePluginsFromDir.
    apply dirLoop_commandFrom; [|exact Hcfg].
    intros x Hx. apply list_elem_of_lookup in Hx as [j Hj].
    rewrite lookup_drop in Hj. eapply list_elem_of_lookup_2. exact Hj.
  - destruct (negb _); [|discriminate Hrun]. eauto using commandFrom_withPlugin.
Qed.

(** X10. A command line that [parseArgs] accepts has a command, and it
    is one of [list], [execute] and [configure], taken from the
    arguments: the switch of [executeCommand] never reaches its
    [unknown command] case on a parsed command line. *)
Theorem parseArgs_command (host : Host) (args : list string) (cfg : config) :
  parseArgs host args = inr cfg ->
  isCommand (config_command cfg) = true
  /\ config_command cfg ∈ args
  /\ config_command cfg ∈ ["list"; "execute"; "configure"].
Proof.
  intros Hrun.
  assert (Hstart : commandFrom args {| config_pluginPaths := []; config_command := "" |})
    by (left; reflexivity).
  destruct (parseFrom_commandFrom host args 0 _ cfg Hstart Hrun) as [Hcmd Hin].
  split; [exact Hcmd|]. split; [exact Hin|].
  unfold isCommand in Hcmd.
  apply orb_true_iff in Hcmd as [Hcmd|Hcmd];
    [apply orb_true_iff in Hcmd as [Hcmd|Hcmd]|];
    apply String.eqb_eq in Hcmd; rewrite Hcmd; here_or_further.
Qed.

Lemma parseArgs_command_witness :
  parseArgs sampleHost ["--dir"; "plugins"; "env"; "list"; "-h"; "configure"]
  = inr {| config_pluginPaths := [hooksDir +:+ "/env.so"]; config_command := "configure" |}
  /\ isCommand "configure" = true.
Proof.
  assert (H : parseArgs sampleHost ["--dir"; "plugins"; "env"; "list"; "-h"; "configure"]
              = inr {| config_pluginPaths := [hooksDir +:+ "/env.so"];
                       config_command := "configure" |}) by reflexivity.
  split; [exact H|].
  exact (proj1 (parseArgs_command sampleHost _ _ H)).
Defined.

(** *** Loading extensions *)

(** The exits of [LoadPlugin], one by one. *)
Lemma LoadPlugin_cases (host : Host) (pluginPath : string) (pm pm' : PluginManager)
    (t : list event) (err : option error) :
  LoadPlugin host pluginPath pm = (t, Return (pm', err)) ->
  (err <> None -> pm' = pm)
  /\ (err = None ->
      exists instance absPath,
        t = [Invoke Initialize_]
        /\ Initialize instance = Returned None
        /\ GetPlugin (filepath_Base host pluginPath) pm' = Some instance
        /\ pluginPaths pm' !! filepath_Base host pluginPath = Some absPath
        /\ (filepath_Abs host pluginPath = inr absPath
            \/ (exists e, filepath_Abs host pluginPath = inl e) /\ absPath = pluginPath)
        /\ pluginDir pm' = pluginDir pm
        /\ forall other, other <> filepath_Base host pluginPath ->
             plugins pm' !! other = plugins pm !! other
             /\ pluginPaths pm' !! other = pluginPaths pm !! other).
Proof.
  unfold LoadPlugin.
  assert (Hgen : forall (t0 : list event) (msg : string) (Q : Prop),
             ((t0, Return (pm, Some msg)) : proc (PluginManager * option error))
             = (t, Return (pm', err)) ->
             (err <> None -> pm' = pm) /\ (err = None -> Q)).
  { intros t0 msg Q [= <- <- <-]. split; [reflexivity|discriminate]. }
  assert (Hok : forall absPath,
             (filepath_Abs host pluginPath = inr absPath
              \/ (exists e, filepath_Abs host pluginPath = inl e) /\ absPath = pluginPath) ->
             forall instance, Initialize instance = Returned None ->
             (([Invoke Initialize_],
               Return ({| plugins := <[filepath_Base host pluginPath := instance]> (plugins pm);
                          pluginPaths :=
                            <[filepath_Base host pluginPath := absPath]> (pluginPaths pm);
                          pluginDir := pluginDir pm |}, None))
              : proc (PluginManager * option error)) = (t, Return (pm', err)) ->
             (err <> None -> pm' = pm)
             /\ (err = None ->
                 exists instance absPath,
                   t = [Invoke Initialize_]
                   /\ Initialize instance = Returned None
                   /\ GetPlugin (filepath_Base host pluginPath) pm' = Some instance
                   /\ pluginPaths pm' !! filepath_Base host pluginPath = Some absPath
                   /\ (filepath_Abs host pluginPath = inr absPath
                       \/ (exists e, filepath_Abs host pluginPath = inl e)
                          /\ absPath = pluginPath)
                   /\ pluginDir pm' = pluginDir pm
                   /\ forall other, other <> filepath_Base host pluginPath ->
                        plugins pm' !! other = plugins pm !! other
                        /\ pluginPaths pm' !! other = pluginPaths pm !! other)).
  { intros absPath Habs instance Hinit [= <- <- <-].
    split; [intros H; now destruct H|]. intros _.
    exists instance, absPath. unfold GetPlugin. cbn.
    repeat split; try apply lookup_insert_eq; try assumption;
      apply lookup_insert_ne; congruence. }
  destruct (os_Stat host pluginPath); [|apply Hgen|];
    (destruct (plugin_Open host pluginPath) as [e|p]; [apply Hgen|];
     destruct (p "New") as [e|[creator|]]; [apply Hgen| |apply Hgen];
     destruct creator as [[instance|]|panic];
     [|apply Hgen|cbn; discriminate];
     unfold called; rewrite bind_Return; cbn beta iota;
     destruct (Initialize instance) as [[e|]|panic] eqn:Hinit;
     [cbn; apply Hgen|cbn|cbn; discriminate];
     destruct (filepath_Abs host pluginPath) as [e|absPath] eqn:Habs;
     [apply (Hok pluginPath); [right; eauto|exact Hinit]
     |apply (Hok absPath); [left; reflexivity|exact Hinit]]).
Qed.



Lemma LoadPlugin_sameNames (host : Host) (pluginPath : string) (pm pm' : PluginManager)
    (t : list event) (err : option error) :
  LoadPlugin host pluginPath pm = (t, Return (pm', err)) ->
  sameNames pm -> sameNames pm'.
Proof.
  intros Hload Hpm. destruct (LoadPlugin_cases _ _ _ _ _ _ Hload) as [Hfail Hok].
  destruct err as [e|]; [now rewrite (Hfail ltac:(discriminate))|].
  destruct (Hok eq_refl) as (instance & absPath & _ & _ & Hget & Hpath & _ & _ & Hother).
  intros name. destruct (decide (name = filepath_Base host pluginPath)) as [->|Hne].
  - unfold GetPlugin in Hget. rewrite Hget, Hpath. split; eauto.
  - destruct (Hother name Hne) as [-> ->]. apply Hpm.
Qed.

Lemma loadEach_sameNames (host : Host) (files : list string) :
  forall pm loadErrors t pm' loadErrors',
    loadEach host files pm loadErrors = (t, Return (pm', loadErrors')) ->
    sameNames pm -> sameNames pm'.
Proof.
  induction files as [|file files IH]; intros pm loadErrors t pm' loadErrors';
    cbn [loadEach].
  - intros [= _ <- _]. auto.
  - destruct (LoadPlugin host file pm) as [t1 [[pm1 err]|code|panic]] eqn:Hload;
      [|discriminate|discriminate].
    rewrite bind_Return. cbn beta iota.
    destruct (loadEach host files pm1 _) as [t2 [[pm2 errs2]|code|panic]] eqn:Hrest;
      cbn; [|discriminate|discriminate].
    intros [= _ <- _] Hpm.
    eapply IH; [exact Hrest|]. eapply LoadPlugin_sameNames; eauto.
Qed.

Lemma Shutdown_returns_emptied (order : list (string * IPlugin)) (pm pm' : PluginManager)
    (t : list event) (err : option error) :
  Shutdown order pm = (t, Return (pm', err)) -> pm' = emptied pm.
Proof.
  unfold Shutdown.
  destruct (cleanupAll order []) as [t1 [errors|code|panic]]; [|discriminate|discriminate].
  rewrite bind_Return. cbn beta.
  destruct (0 <? length errors)%nat; intros [= _ <- _]; reflexivity.
Qed.

Lemma reachable_sameNames (host : Host) (pm : PluginManager) :
  reachable host pm -> sameNames pm.
Proof.
  induction 1 as [dir|pm path t pm' err _ IH Hload|pm t pm' err _ IH Hall
                 |pm name t pm' err _ IH Hun|pm order t pm' err _ IH _ Hshut].
  - intros name. cbn. rewrite !lookup_empty. split; intros [? [=]].
  - eapply LoadPlugin_sameNames; eauto.
  - revert Hall. unfold LoadAllPlugins.
    destruct (String.eqb (pluginDir pm) ""); [intros [= _ <- _]; exact IH|].
    assert (Hscan :
             match filepath_Glob host (filepath_Join host [pluginDir pm; "*.so"]) with
             | inl err0 =>
                 mret (pm, Some ("failed to scan plugin directory: " +:+ err0))
             | inr files =>
                 '(pm', loadErrors) ← loadEach host files pm [];
                 if (0 <? length loadErrors)%nat
                 then mret (pm', Some ("failed to load some plugins: "
                                       +:+ strings_Join loadErrors "; "))
                 else mret (pm', None)
             end = (t, Return (pm', err)) -> sameNames pm').
    { destruct (filepath_Glob host _) as [e|files]; [intros [= _ <- _]; exact IH|].
      destruct (loadEach host files pm []) as [t1 [[pm1 errs]|code|panic]] eqn:Heach;
        [|discriminate|discriminate].
      rewrite bind_Return. cbn beta iota.
      destruct (0 <? length errs)%nat; intros [= _ <- _];
        eapply loadEach_sameNames; eauto. }
    destruct (os_Stat host (pluginDir pm));
      [exact Hscan|intros [= _ <- _]; exact IH|exact Hscan].
  - revert Hun. unfold UnloadPlugin.
    destruct (plugins pm !! name) as [inst|]; [|intros [= _ <- _]; exact IH].
    destruct (Cleanup inst) as [[e|]|panic]; cbn; [| |discriminate].
    + intros [= _ <- _]; exact IH.
    + intros [= _ <- _]. intros other. cbn.
      destruct (decide (other = name)) as [->|Hne].
      * rewrite !lookup_delete_eq. split; intros [? [=]].
      * rewrite !lookup_delete_ne by congruence. apply IH.
  - apply Shutdown_returns_emptied in Hshut as ->.
    intros name. cbn. rewrite !lookup_empty. split; intros [? [=]].
Qed.

(** X12. Whatever sequence of [LoadPlugin], [LoadAllPlugins],
    [UnloadPlugin] and [Shutdown] a registry has gone through, its two
    maps hold the same names; so [ListPlugins] lists every registered
    extension exactly once, each with the path recorded when it was
    loaded. *)
Theorem ListPlugins_complete (host : Host) (pm : PluginManager)
    (order : list (string * IPlugin)) :
  reachable host pm ->
  ranges pm order ->
  sameNames pm
  /\ NoDup (Name <$> ListPlugins order pm)
  /\ (forall name, name ∈ (Name <$> ListPlugins order pm)
                   <-> is_Some (GetPlugin name pm))
  /\ (forall info, info ∈ ListPlugins order pm ->
        pluginPaths pm !! Name info = Some (Path info)
        /\ exists plugin, GetPlugin (Name info) pm = Some plugin
                          /\ PluginInfo_Description info = Description (GetMetadata plugin)).
Proof.
  intros Hreach Hrange. pose proof (reachable_sameNames host pm Hreach) as Hsame.
  unfold ranges in Hrange.
  assert (Hnames : Name <$> ListPlugins order pm = order.*1).
  { unfold ListPlugins. clear. induction order as [|[name p] order IH]; cbn; congruence. }
  assert (Hin : forall name p, (name, p) ∈ order <-> plugins pm !! name = Some p).
  { intros name p. rewrite Hrange. apply elem_of_map_to_list. }
  split; [exact Hsame|]. split; [|split].
  - rewrite Hnames, Hrange. apply NoDup_fst_map_to_list.
  - intros name. rewrite Hnames. unfold GetPlugin. split.
    + intros Hn. apply list_elem_of_fmap in Hn as ([n p] & -> & Hnp).
      apply Hin in Hnp. eauto.
    + intros [p Hp]. apply Hin in Hp.
      apply list_elem_of_fmap. exists (name, p). split; [reflexivity|exact Hp].
  - intros info Hinfo. unfold ListPlugins in Hinfo.
    apply list_elem_of_fmap in Hinfo as ([name p] & -> & Hnp). cbn.
    apply Hin in Hnp. destruct (proj1 (Hsame name) (ex_intro _ p Hnp)) as [path Hpath].
    rewrite Hpath. split; [reflexivity|]. exists p. split; [exact Hnp|reflexivity].
Qed.

Lemma envLoaded_reachable : reachable sampleHost envLoaded.
Proof.
  apply (reachable_LoadPlugin sampleHost (NewPluginManager "") (hooksDir +:+ "/env.so")
           [Invoke Initialize_] envLoaded None); [constructor|reflexivity].
Qed.

Lemma envLoaded_ranges : ranges envLoaded [("env.so", denyDotEnv)].
Proof.
  unfold ranges, envLoaded. cbn [plugins].
  rewrite insert_empty, map_to_list_singleton. reflexivity.
Qed.

Lemma ListPlugins_complete_witness :
  NoDup (Name <$> ListPlugins [("env.so", denyDotEnv)] envLoaded)
  /\ ListPlugins [("env.so", denyDotEnv)] envLoaded
     = [ {| Name := "env.so"; Path := "/home/u/.claude/hooks/env.so";
            PluginInfo_Description := "" |} ].
Proof.
  split; [|reflexivity].
  exact (proj1 (proj2 (ListPlugins_complete sampleHost envLoaded [("env.so", denyDotEnv)]
                         envLoaded_reachable envLoaded_ranges))).
Defined.

(** [loadPlugins] on the paths up to and including the first one that
    fails. *)
Lemma loadPlugins_app_fail (host : Host) (bad : string) (rest : list string) :
  forall ok pm t1 pm1 t2 pm2 e,
    loadPlugins host ok pm = (t1, Return (pm1, None)) ->
    LoadPlugin host bad pm1 = (t2, Return (pm2, Some e)) ->
    loadPlugins host (ok ++ bad :: rest) pm
    = (t1 ++ t2, Return (pm2, Some ("failed to load plugin " +:+ bad +:+ ": " +:+ e))).
Proof.
  induction ok as [|path ok IH]; intros pm t1 pm1 t2 pm2 e; cbn [app loadPlugins].
  - intros [= <- <-] Hbad. rewrite Hbad, bind_Return.
    unfold mret, proc_ret. cbn [fst snd app]. now rewrite app_nil_r.
  - destruct (LoadPlugin host path pm) as [t0 [[pm0 [e0|]]|code|panic]] eqn:Hload;
      [| |cbn; discriminate|cbn; discriminate];
      rewrite !bind_Return; cbn beta iota; [cbn; discriminate|].
    destruct (loadPlugins host ok pm0) as [t1' f1] eqn:Hok. cbn [fst snd].
    intros [= <- ->] Hbad.
    rewrite (IH pm0 t1' pm1 t2 pm2 e Hok Hbad). cbn [fst snd].
    now rewrite app_assoc.
Qed.

(** X13. [loadPlugins] stops at the first path that fails to load: the
    paths before it stay loaded, the failing one changes nothing, the
    paths after it are not tried, and the error names the failing path. *)
Theorem loadPlugins_stops_at_failure (host : Host) (ok : list string) (bad : string)
    (rest : list string) (pm pm1 pm2 : PluginManager) (t1 t2 : list event) (e : error) :
  loadPlugins host ok pm = (t1, Return (pm1, None)) ->
  LoadPlugin host bad pm1 = (t2, Return (pm2, Some e)) ->
  loadPlugins host (ok ++ bad :: rest) pm
  = (t1 ++ t2, Return (pm1, Some ("failed to load plugin " +:+ bad +:+ ": " +:+ e))).
Proof.
  intros Hok Hbad.
  rewrite (loadPlugins_app_fail host bad rest ok pm t1 pm1 t2 pm2 e Hok Hbad).
  destruct (LoadPlugin_cases _ _ _ _ _ _ Hbad) as [Hsame _].
  now rewrite (Hsame ltac:(discriminate)).
Qed.

Lemma loadPlugins_stops_at_failure_witness :
  loadPlugins sampleHost
    ([hooksDir +:+ "/env.so"] ++ (hooksDir +:+ "/broken.so") :: ["missing.so"])
    (NewPluginManager "")
  = ([Invoke Initialize_] ++ [],
     Return (envLoaded,
             Some ("failed to load plugin " +:+ (hooksDir +:+ "/broken.so") +:+ ": "
                   +:+ "failed to open plugin /home/u/.claude/hooks/broken.so: plugin.Open: not a shared object"))).
Proof.
  apply (loadPlugins_stops_at_failure sampleHost [hooksDir +:+ "/env.so"]
           (hooksDir +:+ "/broken.so") ["missing.so"] (NewPluginManager "")
           envLoaded envLoaded); reflexivity.
Defined.

(** The loop of [LoadAllPlugins] over two lists of files in a row. *)
Lemma loadEach_app (host : Host) (files2 : list string) :
  forall files1 pm loadErrors t1 pm1 errors1,
    loadEach host files1 pm loadErrors = (t1, Return (pm1, errors1)) ->
    loadEach host (files1 ++ files2) pm loadErrors
    = (t1 ++ (loadEach host files2 pm1 errors1).1,
       (loadEach host files2 pm1 errors1).2).
Proof.
  induction files1 as [|file files1 IH]; intros pm loadErrors t1 pm1 errors1;
    cbn [app loadEach].
  - intros [= <- <- <-]. now destruct (loadEach host files2 pm loadErrors).
  - destruct (LoadPlugin host file pm) as [t0 [[pm0 err]|code|panic]] eqn:Hload;
      [|cbn; discriminate|cbn; discriminate]; rewrite !bind_Return; cbn beta iota.
    destruct (loadEach host files1 pm0 _) as [t1' f1] eqn:H1. cbn [fst snd].
    intros [= <- ->]. rewrite (IH _ _ _ _ _ H1). cbn [fst snd].
    now rewrite app_assoc.
Qed.

(** X14. [LoadAllPlugins] goes on after a file that fails to load: the
    files after it are still tried from the registry as it stands, what
    loads is registered, and the call returns the error [failed to load
    some plugins:] with the messages of all failures. *)
Theorem LoadAllPlugins_continues (host : Host) (pm pm1 pm2 pm3 : PluginManager)
    (before : list string) (bad : string) (after : list string)
    (t1 t2 t3 : list event) (errors1 errors3 : list string) (e : string) :
  pluginDir pm <> "" ->
  os_Stat host (pluginDir pm) <> NotExist ->
  filepath_Glob host (filepath_Join host [pluginDir pm; "*.so"])
  = inr (before ++ bad :: after) ->
  loadEach host before pm [] = (t1, Return (pm1, errors1)) ->
  LoadPlugin host bad pm1 = (t2, Return (pm2, Some e)) ->
  loadEach host after pm1 (errors1 ++ [e]) = (t3, Return (pm3, errors3)) ->
  LoadAllPlugins host pm
  = (t1 ++ t2 ++ t3,
     Return (pm3, Some ("failed to load some plugins: " +:+ strings_Join errors3 "; ")))
  /\ (exists more, errors3 = errors1 ++ e :: more).
Proof.
  intros Hdir Hstat Hglob Hbefore Hbad Hafter.
  assert (Hpm2 : pm2 = pm1).
  { destruct (LoadPlugin_cases _ _ _ _ _ _ Hbad) as [Hsame _].
    apply Hsame. discriminate. }
  subst pm2.
  assert (Hmore : forall files pm0 errors0 t pm' errors',
             loadEach host files pm0 errors0 = (t, Return (pm', errors')) ->
             exists more, errors' = errors0 ++ more).
  { induction files as [|file files IH]; intros pm0 errors0 t pm' errors';
      cbn [loadEach].
    - intros [= _ _ <-]. exists []. now rewrite app_nil_r.
    - destruct (LoadPlugin host file pm0) as [t0 [[pm0' err]|code|panic]];
        [|cbn; discriminate|cbn; discriminate]; rewrite bind_Return; cbn beta iota.
      destruct (loadEach host files pm0' _) as [t' [[pm'' errs'']|code|panic]] eqn:Hrest;
        cbn; [|discriminate|discriminate].
      intros [= _ _ <-]. destruct (IH _ _ _ _ _ Hrest) as [more ->].
      destruct err as [e0|]; [rewrite <- app_assoc|]; eauto. }
  destruct (Hmore _ _ _ _ _ _ Hafter) as [more Herrors].
  split; [|exists more; rewrite Herrors, <- app_assoc; reflexivity].
  assert (Hloop : loadEach host (before ++ bad :: after) pm []
                  = (t1 ++ t2 ++ t3, Return (pm3, errors3))).
  { rewrite (loadEach_app host (bad :: after) before pm [] t1 pm1 errors1 Hbefore).
    cbn [loadEach]. rewrite Hbad, bind_Return. cbn beta iota. rewrite Hafter.
    reflexivity. }
  unfold LoadAllPlugins.
  destruct (String.eqb_spec (pluginDir pm) "") as [Hempty|_]; [contradiction|].
  assert (Hlen : (0 <? length errors3)%nat = true).
  { rewrite Herrors, <- app_assoc. destruct errors1; reflexivity. }
  destruct (os_Stat host (pluginDir pm)); [|contradiction|];
    rewrite Hglob, Hloop, bind_Return; cbn beta iota; rewrite Hlen;
    cbn; now rewrite !app_nil_r.
Qed.

Lemma LoadAllPlugins_continues_witness :
  LoadAllPlugins sampleHost (NewPluginManager hooksDir)
  = ([] ++ [] ++ [Invoke Initialize_],
     Return (envLoadedFromDir,
             Some ("failed to load some plugins: " +:+ strings_Join [brokenError] "; ")))
  /\ (exists more, [brokenError] = [] ++ brokenError :: more).
Proof.
  apply (LoadAllPlugins_continues sampleHost (NewPluginManager hooksDir)
           (NewPluginManager hooksDir) (NewPluginManager hooksDir) envLoadedFromDir
           [] (hooksDir +:+ "/broken.so") [hooksDir +:+ "/env.so"]
           [] [] [Invoke Initialize_] [] [brokenError] brokenError);
    first [reflexivity | discriminate].
Defined.

(** *** Settings *)

(** The first loop of [updateHookConfigs], from any state on. *)
Lemma updateExisting_from (newPlugins : gmap string (list string))
    (existing : list HookConfig) :
  forall (result : list HookConfig) (processedMatchers : gmap string bool),
    exists processedMatchers' : gmap string bool,
      fold_left
        (fun '((result, processedMatchers) : list HookConfig * gmap string bool)
             (config : HookConfig) =>
           match newPlugins !! Matcher config with
           | Some pluginNames =>
               (result ++ [{| Matcher := Matcher config;
                              Hooks := hookEntries pluginNames |}],
                <[Matcher config := true]> processedMatchers)
           | None => (result ++ [config], processedMatchers)
           end)
        existing (result, processedMatchers)
      = (result ++ map (refreshed newPlugins) existing, processedMatchers')
      /\ forall matcher,
           default false (processedMatchers' !! matcher) = true
           <-> default false (processedMatchers !! matcher) = true
               \/ (matcher ∈ (Matcher <$> existing) /\ is_Some (newPlugins !! matcher)).
Proof.
  induction existing as [|config existing IH]; intros result processedMatchers;
    cbn [fold_left map].
  - exists processedMatchers. rewrite app_nil_r. split; [reflexivity|].
    intros matcher. cbn. rewrite elem_of_nil. tauto.
  - assert (Hrefreshed : refreshed newPlugins config
                         = match newPlugins !! Matcher config with
                           | Some pluginNames =>
                               {| Matcher := Matcher config;
                                  Hooks := hookEntries pluginNames |}
                           | None => config
                           end) by reflexivity.
    cbn beta iota.
    destruct (newPlugins !! Matcher config) as [pluginNames|] eqn:Hnew;
      rewrite Hrefreshed; clear Hrefreshed.
    + destruct (IH (result ++ [{| Matcher := Matcher config;
                                  Hooks := hookEntries pluginNames |}])
                  (<[Matcher config := true]> processedMatchers))
        as (processed' & Heq & Hprocessed).
      exists processed'. rewrite Heq, <- app_assoc.
      split; [reflexivity|].
      intros matcher. rewrite Hprocessed. cbn [fmap list_fmap]. rewrite elem_of_cons.
      destruct (decide (matcher = Matcher config)) as [->|Hne].
      * rewrite lookup_insert_eq, Hnew. cbn. split; [|tauto].
        intros _. right. split; [now left|eauto].
      * rewrite lookup_insert_ne by congruence. tauto.
    + destruct (IH (result ++ [config]) processedMatchers)
        as (processed' & Heq & Hprocessed).
      exists processed'. rewrite Heq, <- app_assoc.
      split; [reflexivity|].
      intros matcher. rewrite Hprocessed. cbn [fmap list_fmap]. rewrite elem_of_cons.
      split; [tauto|]. intros [H|[[->|H] Hsome]]; [tauto| |tauto].
      rewrite Hnew in Hsome. now destruct Hsome.
Qed.

(** The second loop, in closed form. *)
Lemma addMissing_filter (processedMatchers : gmap string bool)
    (order : list (string * list string)) :
  forall result,
    addMissing processedMatchers order result
    = result
      ++ map added
           (filter (fun entry => default false (processedMatchers !! entry.1) = false)
              order).
Proof.
  unfold addMissing.
  induction order as [|[matcher pluginNames] order IH]; intros result; cbn [fold_left].
  - now rewrite app_nil_r.
  - rewrite IH, filter_cons. cbn [fst].
    destruct (default false (processedMatchers !! matcher)) eqn:Hp.
    + rewrite decide_False by discriminate. reflexivity.
    + rewrite decide_True by reflexivity. cbn [map]. now rewrite <- app_assoc.
Qed.

Lemma filter_agree {A} (P Q : A -> Prop) `{forall x, base.Decision (P x)}
    `{forall x, base.Decision (Q x)} (l : list A) :
  (forall x, x ∈ l -> P x <-> Q x) -> filter P l = filter Q l.
Proof.
  induction l as [|x l IH]; intros Hpq; [reflexivity|].
  rewrite !filter_cons.
  assert (Hl : filter P l = filter Q l)
    by (apply IH; intros y Hy; apply Hpq; now right).
  destruct (decide (P x)) as [Hp|Hp], (decide (Q x)) as [Hq|Hq];
    rewrite ?Hl; try reflexivity.
  - destruct Hq. apply (Hpq x); [now left|exact Hp].
  - destruct Hp. apply (Hpq x); [now left|exact Hq].
Qed.

(** [updateHookConfigs] in closed form: the existing configurations,
    refreshed in place, then one new configuration for every matcher that
    none of them has. *)
Lemma updateHookConfigs_closed (order : list (string * list string))
    (existing : list HookConfig) (newPlugins : gmap string (list string)) :
  rangesOver newPlugins order ->
  updateHookConfigs order existing newPlugins
  = map (refreshed newPlugins) existing
    ++ map added (filter (fun entry => entry.1 ∉ (Matcher <$> existing)) order).
Proof.
  intros Horder. unfold updateHookConfigs, updateExisting.
  destruct (updateExisting_from newPlugins existing [] ∅)
    as (processed & -> & Hprocessed).
  rewrite addMissing_filter. cbn [app]. f_equal. f_equal.
  apply filter_agree. intros [matcher pluginNames] Hin. cbn [fst].
  assert (Hnew : newPlugins !! matcher = Some pluginNames).
  { unfold rangesOver in Horder. rewrite Horder in Hin.
    now apply elem_of_map_to_list in Hin. }
  specialize (Hprocessed matcher). rewrite lookup_empty in Hprocessed. cbn in Hprocessed.
  destruct (default false (processed !! matcher)).
  - split; [discriminate|]. intros Hnot. exfalso.
    destruct (proj1 Hprocessed eq_refl) as [H|[H _]]; [discriminate|contradiction].
  - split; [|reflexivity]. intros _ Hin'.
    assert (false = true) by (apply Hprocessed; right; split; eauto). discriminate.
Qed.

Lemma elem_of_map {A B} (f : A -> B) (l : list A) (y : B) :
  y ∈ map f l <-> exists x, y = f x /\ x ∈ l.
Proof. exact (list_elem_of_fmap f l y). Qed.

Lemma filter_none {A} (P : A -> Prop) `{forall x, base.Decision (P x)} (l : list A) :
  (forall x, x ∈ l -> ~ P x) -> filter P l = [].
Proof.
  induction l as [|x l IH]; intros Hnone; [reflexivity|].
  rewrite filter_cons, decide_False by (apply Hnone; now left).
  apply IH. intros y Hy. apply Hnone. now right.
Qed.

(** Who is in the result of [updateHookConfigs]. *)
Lemma updateHookConfigs_members (order : list (string * list string))
    (existing : list HookConfig) (newPlugins : gmap string (list string)) :
  rangesOver newPlugins order ->
  let result := updateHookConfigs order existing newPlugins in
  (forall matcher pluginNames, newPlugins !! matcher = Some pluginNames ->
     exists config, config ∈ result /\ Matcher config = matcher)
  /\ (forall config pluginNames, config ∈ result ->
        newPlugins !! Matcher config = Some pluginNames ->
        Hooks config = hookEntries pluginNames)
  /\ (forall config, config ∈ result -> newPlugins !! Matcher config = None ->
        config ∈ existing).
Proof.
  intros Horder result. subst result. rewrite (updateHookConfigs_closed _ _ _ Horder).
  assert (Hadded : forall config,
             config ∈ map added
                        (filter (fun entry => entry.1 ∉ (Matcher <$> existing)) order) ->
             exists pluginNames, newPlugins !! Matcher config = Some pluginNames
                                 /\ Hooks config = hookEntries pluginNames).
  { intros config Hin. apply elem_of_map in Hin as ([matcher pluginNames] & -> & Hin).
    apply list_elem_of_filter in Hin as [_ Hin].
    unfold rangesOver in Horder. rewrite Horder in Hin.
    apply elem_of_map_to_list in Hin. exists pluginNames. now split. }
  assert (Hrefreshed : forall config,
             config ∈ map (refreshed newPlugins) existing ->
             exists old, old ∈ existing /\ config = refreshed newPlugins old).
  { intros config Hin. apply elem_of_map in Hin as (old & -> & Hin).
    exists old. now split. }
  split; [|split].
  - intros matcher pluginNames Hnew.
    destruct (decide (matcher ∈ (Matcher <$> existing))) as [Hin|Hnot].
    + apply list_elem_of_fmap in Hin as (old & -> & Hin).
      exists (refreshed newPlugins old). split.
      * apply elem_of_app. left. apply elem_of_map. eauto.
      * unfold refreshed. now rewrite Hnew.
    + exists (added (matcher, pluginNames)). split; [|reflexivity].
      apply elem_of_app. right. apply elem_of_map.
      exists (matcher, pluginNames). split; [reflexivity|].
      apply list_elem_of_filter. split; [exact Hnot|].
      unfold rangesOver in Horder. rewrite Horder. now apply elem_of_map_to_list.
  - intros config pluginNames Hin Hnew. apply elem_of_app in Hin as [Hin|Hin].
    + apply Hrefreshed in Hin as (old & _ & ->). revert Hnew. unfold refreshed.
      destruct (newPlugins !! Matcher old) as [names|] eqn:Hold; cbn [Matcher Hooks].
      * rewrite Hold. now intros [= ->].
      * rewrite Hold. discriminate.
    + apply Hadded in Hin as (names & Hnames & ->). congruence.
  - intros config Hin Hnone. apply elem_of_app in Hin as [Hin|Hin].
    + apply Hrefreshed in Hin as (old & Hold & ->). revert Hnone. unfold refreshed.
      destruct (newPlugins !! Matcher old) as [names|] eqn:Hnew; cbn [Matcher].
      * rewrite Hnew. discriminate.
      * now intros _.
    + apply Hadded in Hin as (names & Hnames & _). congruence.
Qed.

(** X15. [updateHookConfigs] keeps the existing configurations in place: those
    whose matcher has extensions get the hooks of these extensions, the
    others are not touched; every matcher with extensions is configured,
    and with no hooks but those of its extensions. *)
Theorem updateHookConfigs_serves (order : list (string * list string))
    (existing : list HookConfig) (newPlugins : gmap string (list string)) :
  rangesOver newPlugins order ->
  let result := updateHookConfigs order existing newPlugins in
  (forall i config, existing !! i = Some config ->
     result !! i = Some (refreshed newPlugins config))
  /\ (forall matcher pluginNames, newPlugins !! matcher = Some pluginNames ->
        exists config, config ∈ result /\ Matcher config = matcher)
  /\ (forall config pluginNames, config ∈ result ->
        newPlugins !! Matcher config = Some pluginNames ->
        Hooks config = hookEntries pluginNames)
  /\ (forall config, config ∈ result -> newPlugins !! Matcher config = None ->
        config ∈ existing).
Proof.
  intros Horder result. split; [|exact (updateHookConfigs_members _ _ _ Horder)].
  subst result. rewrite (updateHookConfigs_closed _ _ _ Horder).
  intros i config Hi. rewrite lookup_app_l.
  - change (map (refreshed newPlugins) existing) with (refreshed newPlugins <$> existing).
    now rewrite list_lookup_fmap, Hi.
  - rewrite length_map. now apply lookup_lt_Some in Hi.
Qed.

Lemma refreshed_idempotent (newPlugins : gmap string (list string)) (config : HookConfig) :
  refreshed newPlugins (refreshed newPlugins config) = refreshed newPlugins config.
Proof.
  unfold refreshed at 2.
  destruct (newPlugins !! Matcher config) as [pluginNames|] eqn:Hnew; unfold refreshed.
  - cbn [Matcher]. now rewrite Hnew.
  - now rewrite Hnew.
Qed.

(** X16. Updating a second time changes nothing: the settings that
    [updateHookConfigs] returns are a fixed point of it, in whatever
    order the two calls go through [newPlugins]. *)
Theorem updateHookConfigs_idempotent (order1 order2 : list (string * list string))
    (existing : list HookConfig) (newPlugins : gmap string (list string)) :
  rangesOver newPlugins order1 ->
  rangesOver newPlugins order2 ->
  updateHookConfigs order2 (updateHookConfigs order1 existing newPlugins) newPlugins
  = updateHookConfigs order1 existing newPlugins.
Proof.
  intros Horder1 Horder2.
  rewrite (updateHookConfigs_closed order2 _ _ Horder2).
  destruct (updateHookConfigs_members order1 existing newPlugins Horder1)
    as (Hcovered & _ & _).
  rewrite (updateHookConfigs_closed order1 existing _ Horder1) in *.
  set (result := map (refreshed newPlugins) existing ++ _) in *.
  assert (Hnone : filter (fun entry => entry.1 ∉ (Matcher <$> result)) order2 = []).
  { apply filter_none. intros [matcher pluginNames] Hin Hnot.
    apply Hnot. cbn [fst].
    unfold rangesOver in Horder2. rewrite Horder2 in Hin.
    apply elem_of_map_to_list in Hin.
    destruct (Hcovered matcher pluginNames Hin) as (config & Hconfig & <-).
    apply list_elem_of_fmap. eauto. }
  rewrite Hnone. cbn [map]. rewrite app_nil_r.
  subst result. rewrite map_app, map_map. f_equal.
  - apply map_ext. intros config. apply refreshed_idempotent.
  - rewrite map_map. apply map_ext_in. intros [matcher pluginNames] Hin.
    apply list_elem_of_In, list_elem_of_filter in Hin as [_ Hin].
    unfold rangesOver in Horder1. rewrite Horder1 in Hin.
    apply elem_of_map_to_list in Hin.
    unfold refreshed, added. cbn [Matcher fst snd]. now rewrite Hin.
Qed.

Lemma byMatcherOrder_ranges : rangesOver byMatcher byMatcherOrder.
Proof.
  unfold rangesOver, byMatcher, byMatcherOrder.
  rewrite map_to_list_insert by reflexivity.
  rewrite insert_empty, map_to_list_singleton. apply perm_swap.
Qed.

Lemma byMatcherOrder_ranges' : rangesOver byMatcher (rev byMatcherOrder).
Proof.
  unfold rangesOver, byMatcher, byMatcherOrder.
  rewrite map_to_list_insert by reflexivity.
  rewrite insert_empty, map_to_list_singleton. reflexivity.
Qed.

Lemma updateHookConfigs_serves_witness :
  updateHookConfigs byMatcherOrder staleSettings byMatcher
  = [ {| Matcher := "Bash";
         Hooks := [ {| HookEntry_Type := "command"; HookEntry_Command := "audit" |} ] |};
      {| Matcher := "Read|Write|Edit|MultiEdit";
         Hooks := [ {| HookEntry_Type := "command";
                       HookEntry_Command := "claude-plugin env execute" |} ] |};
      {| Matcher := "Write|Edit|MultiEdit";
         Hooks := [ {| HookEntry_Type := "command";
                       HookEntry_Command := "claude-plugin gocheck execute" |} ] |} ]
  /\ (forall config, config ∈ updateHookConfigs byMatcherOrder staleSettings byMatcher ->
        byMatcher !! Matcher config = None -> config ∈ staleSettings).
Proof.
  split; [vm_compute; reflexivity|].
  exact (proj2 (proj2 (proj2
           (updateHookConfigs_serves byMatcherOrder staleSettings byMatcher
              byMatcherOrder_ranges)))).
Defined.

Lemma updateHookConfigs_idempotent_witness :
  updateHookConfigs (rev byMatcherOrder)
    (updateHookConfigs byMatcherOrder staleSettings byMatcher) byMatcher
  = updateHookConfigs byMatcherOrder staleSettings byMatcher.
Proof.
  exact (updateHookConfigs_idempotent byMatcherOrder (rev byMatcherOrder)
           staleSettings byMatcher byMatcherOrder_ranges byMatcherOrder_ranges').
Defined.

(** One [append] of [updateSettingsFile]: who is listed under which
    matcher afterwards. *)
Lemma appendName_elem_of (matcher name : string) (byMatcher : gmap string (list string))
    (matcher' name' : string) :
  name' ∈ default [] (appendName matcher name byMatcher !! matcher')
  <-> name' ∈ default [] (byMatcher !! matcher')
      \/ (matcher' = matcher /\ name' = name).
Proof.
  unfold appendName. destruct (decide (matcher' = matcher)) as [->|Hne].
  - rewrite lookup_insert_eq. change (default [] (Some ?l)) with l.
    rewrite elem_of_app, list_elem_of_singleton.
    tauto.
  - rewrite lookup_insert_ne by congruence. split; [tauto|].
    intros [H|[H _]]; [exact H|contradiction].
Qed.

Lemma appendName_nonempty (matcher name : string) (byMatcher : gmap string (list string)) :
  (forall matcher' names, byMatcher !! matcher' = Some names -> names <> []) ->
  forall matcher' names,
    appendName matcher name byMatcher !! matcher' = Some names -> names <> [].
Proof.
  intros Hne matcher' names. unfold appendName.
  destruct (decide (matcher' = matcher)) as [->|Hdiff].
  - rewrite lookup_insert_eq. intros [= <-].
    destruct (default [] (byMatcher !! matcher)); discriminate.
  - rewrite lookup_insert_ne by congruence. apply Hne.
Qed.

(** The guarded [append]: nothing is recorded for an empty matcher. *)
Lemma guarded_appendName_elem_of (matcher name : string)
    (byMatcher : gmap string (list string)) (matcher' name' : string) :
  name' ∈ default []
            ((if negb (String.eqb matcher "") then appendName matcher name byMatcher
              else byMatcher) !! matcher')
  <-> name' ∈ default [] (byMatcher !! matcher')
      \/ (matcher' = matcher /\ name' = name /\ matcher <> "").
Proof.
  destruct (String.eqb_spec matcher "") as [Hempty|Hfull]; cbn [negb].
  - tauto.
  - rewrite appendName_elem_of. tauto.
Qed.

Lemma guarded_appendName_nonempty (matcher name : string)
    (byMatcher : gmap string (list string)) :
  (forall matcher' names, byMatcher !! matcher' = Some names -> names <> []) ->
  forall matcher' names,
    (if negb (String.eqb matcher "") then appendName matcher name byMatcher
     else byMatcher) !! matcher' = Some names -> names <> [].
Proof.
  intros Hne. destruct (negb _); [now apply appendName_nonempty|exact Hne].
Qed.

(** The loop of [updateSettingsFile] over any listing, from any two maps
    on. *)
Lemma collectMatchers_from (pm : PluginManager) (listing : list PluginInfo) :
  forall preToolUsePlugins postToolUsePlugins : gmap string (list string),
    let collected :=
      fold_left
        (fun '((preToolUsePlugins, postToolUsePlugins)
               : gmap string (list string) * gmap string (list string))
             (info : PluginInfo) =>
           match GetPlugin (Name info) pm with
           | None => (preToolUsePlugins, postToolUsePlugins)
           | Some plugin =>
               let metadata := GetMetadata plugin in
               (if negb (String.eqb (Matcher_PreToolUse metadata) "")
                then appendName (Matcher_PreToolUse metadata) (Name info) preToolUsePlugins
                else preToolUsePlugins,
                if negb (String.eqb (Matcher_PostToolUse metadata) "")
                then appendName (Matcher_PostToolUse metadata) (Name info)
                       postToolUsePlugins
                else postToolUsePlugins)
           end)
        listing (preToolUsePlugins, postToolUsePlugins) in
    (forall matcher name,
       name ∈ default [] (collected.1 !! matcher)
       <-> name ∈ default [] (preToolUsePlugins !! matcher)
           \/ (name ∈ (Name <$> listing) /\ asksFor Matcher_PreToolUse pm matcher name))
    /\ (forall matcher name,
          name ∈ default [] (collected.2 !! matcher)
          <-> name ∈ default [] (postToolUsePlugins !! matcher)
              \/ (name ∈ (Name <$> listing)
                  /\ asksFor Matcher_PostToolUse pm matcher name))
    /\ ((forall matcher names, preToolUsePlugins !! matcher = Some names -> names <> []) ->
        forall matcher names, collected.1 !! matcher = Some names -> names <> [])
    /\ ((forall matcher names, postToolUsePlugins !! matcher = Some names -> names <> []) ->
        forall matcher names, collected.2 !! matcher = Some names -> names <> []).
Proof.
  induction listing as [|info listing IH]; intros pre post; cbn [fold_left].
  - cbn [fst snd fmap list_fmap].
    repeat split; try tauto; try (intros [H|[H _]]; [exact H|now apply elem_of_nil in H]).
  - cbn beta iota zeta.
    assert (Hasks : forall selector matcher name,
               name = Name info /\ asksFor selector pm matcher name
               <-> exists plugin, GetPlugin (Name info) pm = Some plugin
                                  /\ name = Name info
                                  /\ selector (GetMetadata plugin) = matcher
                                  /\ matcher <> "").
    { intros selector matcher name. unfold asksFor. split.
      - intros (-> & Hne & plugin & Hget & Hsel). eauto 6.
      - intros (plugin & Hget & -> & Hsel & Hne). eauto 6. }
    destruct (GetPlugin (Name info) pm) as [plugin|] eqn:Hget.
    + cbn zeta.
      pose proof (guarded_appendName_elem_of (Matcher_PreToolUse (GetMetadata plugin))
                    (Name info) pre) as Hpre1.
      pose proof (guarded_appendName_elem_of (Matcher_PostToolUse (GetMetadata plugin))
                    (Name info) post) as Hpost1.
      pose proof (guarded_appendName_nonempty (Matcher_PreToolUse (GetMetadata plugin))
                    (Name info) pre) as Hpre1'.
      pose proof (guarded_appendName_nonempty (Matcher_PostToolUse (GetMetadata plugin))
                    (Name info) post) as Hpost1'.
      set (pre1 := if negb (String.eqb (Matcher_PreToolUse (GetMetadata plugin)) "")
                   then _ else pre) in *.
      set (post1 := if negb (String.eqb (Matcher_PostToolUse (GetMetadata plugin)) "")
                    then _ else post) in *.
      specialize (IH pre1 post1). cbn zeta in IH.
      destruct IH as (IHpre & IHpost & IHpre' & IHpost').
      split; [|split; [|split]]; [| |intros Hne; apply IHpre', Hpre1', Hne
                                 |intros Hne; apply IHpost', Hpost1', Hne].
      * intros matcher name. rewrite IHpre, Hpre1. cbn [fmap list_fmap].
        rewrite elem_of_cons.
        pose proof (Hasks Matcher_PreToolUse matcher name) as Hhere. split.
        -- intros [[H|(-> & -> & Hne)]|H]; [tauto| |tauto].
           right. split; [now left|]. apply Hhere. eauto 6.
        -- intros [H|[[H|H] Hask]]; [tauto| |tauto].
           destruct (proj1 Hhere (conj H Hask)) as (p & [= <-] & -> & Hsel & Hne).
           left. right. repeat split; congruence.
      * intros matcher name. rewrite IHpost, Hpost1. cbn [fmap list_fmap].
        rewrite elem_of_cons.
        pose proof (Hasks Matcher_PostToolUse matcher name) as Hhere. split.
        -- intros [[H|(-> & -> & Hne)]|H]; [tauto| |tauto].
           right. split; [now left|]. apply Hhere. eauto 6.
        -- intros [H|[[H|H] Hask]]; [tauto| |tauto].
           destruct (proj1 Hhere (conj H Hask)) as (p & [= <-] & -> & Hsel & Hne).
           left. right. repeat split; congruence.
    + specialize (IH pre post). cbn zeta in IH.
      destruct IH as (IHpre & IHpost & IHpre' & IHpost').
      split; [|split; [|split]]; [| |exact IHpre'|exact IHpost'].
      * intros matcher name. rewrite IHpre. cbn [fmap list_fmap]. rewrite elem_of_cons.
        split; [tauto|]. intros [H|[[H|H] Hask]]; [tauto| |tauto].
        exfalso.
        destruct (proj1 (Hasks Matcher_PreToolUse matcher name) (conj H Hask))
          as (p & [=] & _).
      * intros matcher name. rewrite IHpost. cbn [fmap list_fmap]. rewrite elem_of_cons.
        split; [tauto|]. intros [H|[[H|H] Hask]]; [tauto| |tauto].
        exfalso.
        destruct (proj1 (Hasks Matcher_PostToolUse matcher name) (conj H Hask))
          as (p & [=] & _).
Qed.

(** The names that [ListPlugins] lists are the registered ones. *)
Lemma ListPlugins_names (pm : PluginManager) (order : list (string * IPlugin))
    (name : string) :
  ranges pm order ->
  name ∈ (Name <$> ListPlugins order pm) <-> is_Some (plugins pm !! name).
Proof.
  intros Horder. unfold ListPlugins. split.
  - intros Hin. apply list_elem_of_fmap in Hin as (info & -> & Hin).
    apply elem_of_map in Hin as ([name' plugin] & -> & Hin).
    unfold ranges in Horder. rewrite Horder in Hin.
    apply elem_of_map_to_list in Hin. cbn [Name]. eauto.
  - intros [plugin Hplugin]. apply list_elem_of_fmap.
    exists {| Name := name; Path := default "" (pluginPaths pm !! name);
              PluginInfo_Description := Description (GetMetadata plugin) |}.
    split; [reflexivity|]. apply elem_of_map. exists (name, plugin). split; [reflexivity|].
    unfold ranges in Horder. rewrite Horder. now apply elem_of_map_to_list.
Qed.

(** The two groupings of [updateSettingsFile]. *)
Lemma collectMatchers_asked (pm : PluginManager) (order : list (string * IPlugin)) :
  ranges pm order ->
  (forall matcher name,
     name ∈ default [] ((collectMatchers pm (ListPlugins order pm)).1 !! matcher)
     <-> asksFor Matcher_PreToolUse pm matcher name)
  /\ (forall matcher name,
        name ∈ default [] ((collectMatchers pm (ListPlugins order pm)).2 !! matcher)
        <-> asksFor Matcher_PostToolUse pm matcher name).
Proof.
  intros Horder. unfold collectMatchers.
  destruct (collectMatchers_from pm (ListPlugins order pm) ∅ ∅) as (Hpre & Hpost & _ & _).
  assert (Hlisted : forall selector matcher name,
             asksFor selector pm matcher name -> name ∈ (Name <$> ListPlugins order pm)).
  { intros selector matcher name (_ & plugin & Hget & _).
    apply ListPlugins_names; [exact Horder|]. unfold GetPlugin in Hget. eauto. }
  split.
  - intros matcher name. rewrite Hpre, lookup_empty. change (default [] None) with (@nil string).
    rewrite elem_of_nil. split; [tauto|]. eauto.
  - intros matcher name. rewrite Hpost, lookup_empty. change (default [] None) with (@nil string).
    rewrite elem_of_nil. split; [tauto|]. eauto.
Qed.

(** X17. [updateSettingsFile] groups the listed extensions by matcher: an
    extension is listed under a matcher for [PreToolUse] exactly when it is
    registered and its metadata asks for this matcher, which is not empty;
    the same holds for [PostToolUse]; and no matcher is recorded without an
    extension. *)
Theorem collectMatchers_exact (pm : PluginManager) (order : list (string * IPlugin)) :
  ranges pm order ->
  let collected := collectMatchers pm (ListPlugins order pm) in
  (forall matcher name,
     name ∈ default [] (collected.1 !! matcher)
     <-> asksFor Matcher_PreToolUse pm matcher name)
  /\ (forall matcher name,
        name ∈ default [] (collected.2 !! matcher)
        <-> asksFor Matcher_PostToolUse pm matcher name)
  /\ (forall matcher names, collected.1 !! matcher = Some names -> names <> [])
  /\ (forall matcher names, collected.2 !! matcher = Some names -> names <> []).
Proof.
  intros Horder collected. subst collected.
  destruct (collectMatchers_asked pm order Horder) as [Hpre Hpost].
  split; [exact Hpre|]. split; [exact Hpost|]. unfold collectMatchers.
  destruct (collectMatchers_from pm (ListPlugins order pm) ∅ ∅)
    as (_ & _ & Hpre' & Hpost').
  split.
  - apply Hpre'. intros matcher names. now rewrite lookup_empty.
  - apply Hpost'. intros matcher names. now rewrite lookup_empty.
Qed.

Lemma elem_of_hookEntries (hook : HookEntry) (pluginNames : list string) :
  hook ∈ hookEntries pluginNames
  <-> exists pluginName, hook = hookFor pluginName /\ pluginName ∈ pluginNames.
Proof. apply elem_of_map. Qed.

(** [updateHookConfigs] on a grouping of the extensions by matcher. *)
Lemma updateHookConfigs_asked (asks : string -> string -> Prop)
    (byMatcher : gmap string (list string)) (order : list (string * list string))
    (existing : list HookConfig) :
  rangesOver byMatcher order ->
  (forall matcher name, name ∈ default [] (byMatcher !! matcher) <-> asks matcher name) ->
  (forall matcher name, asks matcher name ->
     exists config, config ∈ updateHookConfigs order existing byMatcher
                    /\ Matcher config = matcher /\ hookFor name ∈ Hooks config)
  /\ (forall config hook, config ∈ updateHookConfigs order existing byMatcher ->
        hook ∈ Hooks config ->
        config ∈ existing
        \/ exists name, asks (Matcher config) name /\ hook = hookFor name).
Proof.
  intros Horder Hasks.
  destruct (updateHookConfigs_members order existing byMatcher Horder)
    as (Hcovered & Hhooks & Hkept).
  split.
  - intros matcher name Hask. apply Hasks in Hask.
    destruct (byMatcher !! matcher) as [pluginNames|] eqn:Hnames;
      [|now apply elem_of_nil in Hask].
    destruct (Hcovered matcher pluginNames Hnames) as (config & Hconfig & Hmatcher).
    exists config. split; [exact Hconfig|]. split; [exact Hmatcher|].
    rewrite (Hhooks config pluginNames Hconfig) by (now rewrite Hmatcher).
    apply elem_of_hookEntries. eauto.
  - intros config hook Hconfig Hhook.
    destruct (byMatcher !! Matcher config) as [pluginNames|] eqn:Hnames.
    + right. rewrite (Hhooks config pluginNames Hconfig Hnames) in Hhook.
      apply elem_of_hookEntries in Hhook as (name & -> & Hname).
      exists name. split; [|reflexivity]. apply Hasks. now rewrite Hnames.
    + left. now apply Hkept.
Qed.

(** X18. What the loop of [updateSettingsFile] and its two calls of
    [updateHookConfigs] make of the registered extensions: every
    extension that asks for a matcher has its hook in a configuration of
    this matcher, for [PreToolUse] and for [PostToolUse]; and a hook of
    the new settings is the hook of such an extension, or stands in a
    configuration that was there before. *)
Theorem updateSettingsFile_hooks (pm : PluginManager) (order : list (string * IPlugin))
    (orderPre orderPost : list (string * list string))
    (existingPre existingPost : list HookConfig) :
  ranges pm order ->
  rangesOver (collectMatchers pm (ListPlugins order pm)).1 orderPre ->
  rangesOver (collectMatchers pm (ListPlugins order pm)).2 orderPost ->
  let collected := collectMatchers pm (ListPlugins order pm) in
  let preToolUse := updateHookConfigs orderPre existingPre collected.1 in
  let postToolUse := updateHookConfigs orderPost existingPost collected.2 in
  (forall matcher name, asksFor Matcher_PreToolUse pm matcher name ->
     exists config, config ∈ preToolUse
                    /\ Matcher config = matcher /\ hookFor name ∈ Hooks config)
  /\ (forall matcher name, asksFor Matcher_PostToolUse pm matcher name ->
        exists config, config ∈ postToolUse
                       /\ Matcher config = matcher /\ hookFor name ∈ Hooks config)
  /\ (forall config hook, config ∈ preToolUse -> hook ∈ Hooks config ->
        config ∈ existingPre
        \/ exists name, asksFor Matcher_PreToolUse pm (Matcher config) name
                        /\ hook = hookFor name)
  /\ (forall config hook, config ∈ postToolUse -> hook ∈ Hooks config ->
        config ∈ existingPost
        \/ exists name, asksFor Matcher_PostToolUse pm (Matcher config) name
                        /\ hook = hookFor name).
Proof.
  intros Horder Hpre Hpost collected preToolUse postToolUse.
  destruct (collectMatchers_asked pm order Horder) as [Hasked Hasked'].
  destruct (updateHookConfigs_asked (asksFor Matcher_PreToolUse pm) collected.1
              orderPre existingPre Hpre Hasked) as [Hserved Honly].
  destruct (updateHookConfigs_asked (asksFor Matcher_PostToolUse pm) collected.2
              orderPost existingPost Hpost Hasked') as [Hserved' Honly'].
  repeat split; assumption.
Qed.

Lemma bothLoadedOrder_ranges : ranges bothLoaded bothLoadedOrder.
Proof.
  unfold ranges, bothLoaded, bothLoadedOrder. cbn [plugins].
  rewrite map_to_list_insert by reflexivity.
  rewrite insert_empty, map_to_list_singleton. apply perm_swap.
Qed.

Lemma collectMatchers_exact_witness :
  (collectMatchers bothLoaded (ListPlugins bothLoadedOrder bothLoaded)).1
    !! "Read|Write|Edit|MultiEdit" = Some ["env.so"]
  /\ (asksFor Matcher_PreToolUse bothLoaded "Read|Write|Edit|MultiEdit" "env.so"
      /\ ~ asksFor Matcher_PostToolUse bothLoaded "Write|Edit|MultiEdit" "env.so").
Proof.
  split; [reflexivity|].
  destruct (collectMatchers_exact bothLoaded bothLoadedOrder bothLoadedOrder_ranges)
    as (Hpre & Hpost & _ & _).
  split.
  - apply Hpre. vm_compute. left.
  - intros Hasks. apply Hpost in Hasks. vm_compute in Hasks.
    apply list_elem_of_singleton in Hasks. discriminate Hasks.
Defined.

Lemma bothLoaded_pre :
  rangesOver (collectMatchers bothLoaded (ListPlugins bothLoadedOrder bothLoaded)).1
    [("Read|Write|Edit|MultiEdit", ["env.so"])].
Proof.
  unfold rangesOver.
  change (collectMatchers bothLoaded (ListPlugins bothLoadedOrder bothLoaded)).1
    with (<["Read|Write|Edit|MultiEdit" := ["env.so"]]> (∅ : gmap string (list string))).
  now rewrite insert_empty, map_to_list_singleton.
Qed.

Lemma bothLoaded_post :
  rangesOver (collectMatchers bothLoaded (ListPlugins bothLoadedOrder bothLoaded)).2
    [("Write|Edit|MultiEdit", ["gocheck.so"])].
Proof.
  unfold rangesOver.
  change (collectMatchers bothLoaded (ListPlugins bothLoadedOrder bothLoaded)).2
    with (<["Write|Edit|MultiEdit" := ["gocheck.so"]]> (∅ : gmap string (list string))).
  now rewrite insert_empty, map_to_list_singleton.
Qed.

Lemma updateSettingsFile_hooks_witness :
  updateHookConfigs [("Read|Write|Edit|MultiEdit", ["env.so"])] staleSettings
    (collectMatchers bothLoaded (ListPlugins bothLoadedOrder bothLoaded)).1
  = [ {| Matcher := "Bash";
         Hooks := [ {| HookEntry_Type := "command"; HookEntry_Command := "audit" |} ] |};
      {| Matcher := "Read|Write|Edit|MultiEdit";
         Hooks := [ hookFor "env.so" ] |} ]
  /\ exists config,
       config ∈ updateHookConfigs [("Write|Edit|MultiEdit", ["gocheck.so"])] []
                  (collectMatchers bothLoaded (ListPlugins bothLoadedOrder bothLoaded)).2
       /\ Matcher config = "Write|Edit|MultiEdit"
       /\ hookFor "gocheck.so" ∈ Hooks config.
Proof.
  split; [reflexivity|].
  apply (proj1 (proj2 (updateSettingsFile_hooks bothLoaded bothLoadedOrder _ _
                         staleSettings [] bothLoadedOrder_ranges
                         bothLoaded_pre bothLoaded_post))).
  split; [discriminate|]. exists gocheckPlugin. split; reflexivity.
Defined.

(** *** The command line without a host *)

Lemma switchCase_plain (arg : string) :
  isCommand arg = true \/ strings_HasSuffix arg ".so" = true ->
  (isCommand arg = true /\ switchCase arg = CommandWord)
  \/ (isCommand arg = false /\ switchCase arg = SharedObject).
Proof.
  unfold switchCase. intros [Hcmd|Hso].
  - left. split; [exact Hcmd|]. unfold isCommand in Hcmd.
    apply orb_true_iff in Hcmd as [Hcmd|Hcmd];
      [apply orb_true_iff in Hcmd as [Hcmd|Hcmd]|];
      apply String.eqb_eq in Hcmd; subst arg; reflexivity.
  - destruct (isCommand arg) eqn:Hcmd.
    + left. split; [reflexivity|]. unfold isCommand in Hcmd.
      apply orb_true_iff in Hcmd as [Hcmd|Hcmd];
        [apply orb_true_iff in Hcmd as [Hcmd|Hcmd]|];
        apply String.eqb_eq in Hcmd; subst arg; reflexivity.
    + right. split; [reflexivity|].
      destruct (String.eqb_spec arg "--help") as [->|_]; [discriminate Hso|].
      destruct (String.eqb_spec arg "-h") as [->|_]; [discriminate Hso|].
      destruct (String.eqb_spec arg "--dir") as [->|_]; [discriminate Hso|].
      cbn [orb]. now rewrite Hso.
Qed.

Lemma parseFrom_plain (host : Host) (args : list string) (i : nat) (cfg : config) :
  Forall (fun arg => isCommand arg = true \/ strings_HasSuffix arg ".so" = true)
    (drop i args) ->
  parseFrom host args i cfg = checked (fold_left plainStep (drop i args) cfg).
Proof.
  funelim (parseFrom host args i cfg); intros Hplain; clear Heqcall.
  all: try (rewrite (drop_S _ _ _ Harg) in Hplain |- *;
            apply Forall_cons in Hplain as [Hhere Hplain];
            apply switchCase_plain in Hhere as [[_ Hhere]|[_ Hhere]];
            try congruence).
  - rewrite drop_ge by (now apply lookup_ge_None). reflexivity.
  - cbn [fold_left]. unfold plainStep at 2. rewrite Hhere. now apply H.
  - cbn [fold_left]. unfold plainStep at 2. rewrite Hhere. now apply H.
Qed.

Lemma plainStep_fold (rest : list string) :
  Forall (fun arg => isCommand arg = true \/ strings_HasSuffix arg ".so" = true) rest ->
  forall cfg,
    config_pluginPaths (fold_left plainStep rest cfg)
    = config_pluginPaths cfg ++ filter (fun arg => isCommand arg = false) rest
    /\ config_command (fold_left plainStep rest cfg)
       = default (config_command cfg) (last (filter (fun arg => isCommand arg = true) rest)).
Proof.
  induction 1 as [|arg rest Hhere _ IH]; intros cfg; cbn [fold_left].
  - rewrite app_nil_r. split; reflexivity.
  - destruct (IH (plainStep cfg arg)) as [-> ->]. rewrite !filter_cons. unfold plainStep.
    apply switchCase_plain in Hhere as [[Hcmd ->]|[Hcmd ->]]; rewrite Hcmd.
    + rewrite decide_False by discriminate. rewrite decide_True by reflexivity.
      cbn [withCommand config_pluginPaths config_command]. split; [reflexivity|].
      generalize (filter (fun arg => isCommand arg = true) rest). intros commands.
      rewrite last_cons. now destruct (last commands).
    + rewrite decide_True by reflexivity. rewrite decide_False by discriminate.
      cbn [withPlugin config_pluginPaths config_command]. split; [|reflexivity].
      now rewrite <- app_assoc.
Qed.

(** X19. A command line made of paths that end in [.so] and of command words
    is parsed without looking at the file system: the paths are kept in
    their order and the last command word is the command; without a
    command word it is refused. *)
Theorem parseArgs_shared_objects (host : Host) (args : list string) :
  Forall (fun arg => isCommand arg = true \/ strings_HasSuffix arg ".so" = true) args ->
  parseArgs host args
  = match last (filter (fun arg => isCommand arg = true) args) with
    | Some command =>
        inr {| config_pluginPaths := filter (fun arg => isCommand arg = false) args;
               config_command := command |}
    | None => inl ("no command specified (list or execute)" +:+ usageHint)
    end.
Proof.
  intros Hplain. unfold parseArgs.
  rewrite (parseFrom_plain host args 0) by exact Hplain. rewrite drop_0.
  destruct (plainStep_fold args Hplain {| config_pluginPaths := []; config_command := "" |})
    as [Hpaths Hcommand].
  cbn [config_pluginPaths config_command app] in Hpaths, Hcommand. unfold checked.
  destruct (fold_left plainStep args _) as [paths parsed].
  cbn [config_pluginPaths config_command] in *. subst paths.
  destruct (last (filter (fun arg => isCommand arg = true) args)) as [command|] eqn:Hlast;
    cbn in Hcommand; subst parsed; [|reflexivity].
  assert (Hcmd : isCommand command = true).
  { apply last_Some_elem_of in Hlast. now apply list_elem_of_filter in Hlast as [? _]. }
  destruct (String.eqb_spec command "") as [->|_]; [discriminate Hcmd|reflexivity].
Qed.

Lemma parseArgs_shared_objects_witness :
  parseArgs sampleHost ["./plugins/env.so"; "list"; "-x.so"; "execute"]
  = inr {| config_pluginPaths := ["./plugins/env.so"; "-x.so"];
           config_command := "execute" |}.
Proof.
  rewrite (parseArgs_shared_objects sampleHost
             ["./plugins/env.so"; "list"; "-x.so"; "execute"]); [reflexivity|].
  repeat (apply Forall_cons; split);
    [now right|now left|now right|now left|now apply Forall_nil].
Defined.

(** *** Help *)

Lemma hasHelpFlag_elem_of (args : list string) :
  hasHelpFlag args = true <-> "--help" ∈ args \/ "-h" ∈ args.
Proof.
  unfold hasHelpFlag. rewrite existsb_exists. split.
  - intros (arg & Hin & Harg). apply list_elem_of_In in Hin.
    apply orb_true_iff in Harg as [Harg|Harg]; apply String.eqb_eq in Harg; subst arg;
      [now left|now right].
  - intros [Hin|Hin]; apply list_elem_of_In in Hin; eauto.
Qed.

(** X20. A help flag anywhere on the command line wins over everything else:
    [main] prints the help and returns, and [run] is not called, so that
    nothing is parsed, loaded or executed. *)
Theorem main_help_wins (run : list string -> proc (option error)) (args : list string) :
  "--help" ∈ args \/ "-h" ∈ args ->
  main run args = printHelp.
Proof.
  intros Hhelp. unfold main.
  rewrite (proj2 (hasHelpFlag_elem_of args) Hhelp), orb_true_r.
  destruct args as [|arg args].
  - destruct Hhelp as [H|H]; now apply elem_of_nil in H.
  - cbn [length Nat.eqb orb]. unfold printHelp. generalize helpLines. intros lines.
    cbn. now rewrite app_nil_r.
Qed.

Lemma main_help_wins_witness :
  main (fun _ => exit ExitCodeBlockingError) ["env.so"; "execute"; "--help"] = printHelp.
Proof.
  apply main_help_wins. left. here_or_further.
Defined.

(** *** The paths of a parsed command line *)

Lemma firstInDefaultPath_found (host : Host) (defaultPath : string)
    (possibleNames : list string) :
  firstInDefaultPath host defaultPath possibleNames <> "" ->
  strings_HasSuffix (firstInDefaultPath host defaultPath possibleNames) ".so" = true
  /\ os_Stat host (firstInDefaultPath host defaultPath possibleNames) = Exists.
Proof.
  induction possibleNames as [|name rest IH]; cbn [firstInDefaultPath]; [congruence|].
  destruct (os_Stat host (filepath_Join host [defaultPath; name])) eqn:Hstat;
    [|exact IH|exact IH].
  destruct (strings_HasSuffix (filepath_Join host [defaultPath; name]) ".so") eqn:Hso;
    [|exact IH].
  intros _. now split.
Qed.

Lemma findPluginInDefaultPath_found (host : Host) (pluginName : string) :
  findPluginInDefaultPath host pluginName <> "" ->
  strings_HasSuffix (findPluginInDefaultPath host pluginName) ".so" = true
  /\ os_Stat host (findPluginInDefaultPath host pluginName) = Exists.
Proof.
  unfold findPluginInDefaultPath. destruct (os_UserHomeDir host) as [e|homeDir];
    [congruence|]. apply firstInDefaultPath_found.
Qed.

Lemma switchCase_SharedObject (arg : string) :
  switchCase arg = SharedObject -> strings_HasSuffix arg ".so" = true.
Proof.
  unfold switchCase.
  destruct (String.eqb arg "--help" || String.eqb arg "-h"); [discriminate|].
  destruct (String.eqb arg "--dir"); [discriminate|].
  destruct (isCommand arg); [discriminate|].
  destruct (strings_HasSuffix arg ".so"); [reflexivity|].
  destruct (negb _); discriminate.
Qed.

Lemma switchCase_DirFlag (arg : string) : switchCase arg = DirFlag -> arg = "--dir".
Proof.
  unfold switchCase.
  destruct (String.eqb arg "--help" || String.eqb arg "-h"); [discriminate|].
  destruct (String.eqb_spec arg "--dir") as [->|_]; [reflexivity|].
  destruct (isCommand arg); [discriminate|].
  destruct (strings_HasSuffix arg ".so"); [discriminate|].
  destruct (negb _); discriminate.
Qed.

Lemma parseFrom_paths (host : Host) (args : list string) (i : nat) (cfg cfg' : config) :
  "--dir" ∉ args ->
  Forall (loadable host args) (config_pluginPaths cfg) ->
  parseFrom host args i cfg = inr cfg' ->
  Forall (loadable host args) (config_pluginPaths cfg').
Proof.
  funelim (parseFrom host args i cfg); intros Hdir Hcfg Hrun; clear Heqcall;
    try discriminate Hrun.
  - destruct (String.eqb (config_command cfg) ""); [discriminate Hrun|].
    now injection Hrun as <-.
  - eauto.
  - eauto.
  - apply (H cfg'); [exact Hdir| |exact Hrun].
    cbn [withPlugin config_pluginPaths]. apply Forall_app. split; [exact Hcfg|].
    apply Forall_singleton. split; [now apply switchCase_SharedObject|].
    left. eapply list_elem_of_lookup_2. exact Harg.
  - exfalso. apply Hdir. match goal with Hcase : switchCase _ = DirFlag |- _ =>
      apply switchCase_DirFlag in Hcase; subst end.
    eapply list_elem_of_lookup_2. exact Harg.
  - destruct (String.eqb_spec (findPluginInDefaultPath host arg) "") as [Hnone|Hfound];
      cbn [negb] in Hrun; [discriminate Hrun|].
    apply (H cfg'); [exact Hdir| |exact Hrun].
    cbn [withPlugin config_pluginPaths]. apply Forall_app. split; [exact Hcfg|].
    apply Forall_singleton.
    destruct (findPluginInDefaultPath_found host arg Hfound) as [Hso Hstat].
    split; [exact Hso|now right].
Qed.

(** X21. Without [--dir], every path that [parseArgs] hands on to be
    loaded ends in [.so], and it is an argument of the command line or a
    file that [findPluginInDefaultPath] has found to exist. *)
Theorem parseArgs_paths (host : Host) (args : list string) (cfg : config) :
  "--dir" ∉ args ->
  parseArgs host args = inr cfg ->
  Forall (loadable host args) (config_pluginPaths cfg).
Proof.
  intros Hdir Hrun.
  apply (parseFrom_paths host args 0 {| config_pluginPaths := []; config_command := "" |});
    [exact Hdir|apply Forall_nil_2|exact Hrun].
Qed.

Lemma parseArgs_paths_witness :
  parseArgs sampleHost ["env"; "./plugins/announce.so"; "list"]
  = inr {| config_pluginPaths := [hooksDir +:+ "/env.so"; "./plugins/announce.so"];
           config_command := "list" |}
  /\ Forall (loadable sampleHost ["env"; "./plugins/announce.so"; "list"])
       [hooksDir +:+ "/env.so"; "./plugins/announce.so"].
Proof.
  assert (H : parseArgs sampleHost ["env"; "./plugins/announce.so"; "list"]
              = inr {| config_pluginPaths :=
                         [hooksDir +:+ "/env.so"; "./plugins/announce.so"];
                       config_command := "list" |}) by reflexivity.
  split; [exact H|].
  refine (parseArgs_paths sampleHost ["env"; "./plugins/announce.so"; "list"]
            {| config_pluginPaths := [hooksDir +:+ "/env.so"; "./plugins/announce.so"];
               config_command := "list" |} _ H).
  intros Hin. repeat (apply elem_of_cons in Hin as [Hin|Hin]; [discriminate|]).
  now apply elem_of_nil in Hin.
Defined.

(** *** The listing *)

Lemma append_assoc (s1 s2 s3 : string) : (s1 +:+ s2) +:+ s3 = s1 +:+ (s2 +:+ s3).
Proof.
  induction s1 as [|a s1 IH]; [reflexivity|].
  change (String a ((s1 +:+ s2) +:+ s3) = String a (s1 +:+ (s2 +:+ s3))). now rewrite IH.
Qed.

Lemma append_empty_r (s : string) : s +:+ "" = s.
Proof.
  induction s as [|a s IH]; [reflexivity|].
  change (String a (s +:+ "") = String a s). now rewrite IH.
Qed.

(** [writePluginInfo] only appends. *)
Lemma writePluginInfo_appends (host : Host) (sb : string) (info : PluginInfo)
    (metadata : PluginMetadata) :
  writePluginInfo host sb info metadata = sb +:+ writePluginInfo host "" info metadata.
Proof.
  unfold writePluginInfo. cbn [fold_left].
  destruct (negb (String.eqb (Matcher_PreToolUse metadata) ""));
    destruct (negb (String.eqb (Matcher_PostToolUse metadata) ""));
    cbn [negb]; change ("" +:+ ?s) with s; now rewrite !append_assoc.
Qed.

Lemma listPlugins_fold (host : Host) (pm : PluginManager) (order : list (string * IPlugin)) :
  Forall (fun entry => GetPlugin entry.1 pm = Some entry.2) order ->
  forall sb,
    fold_left
      (fun sb info =>
         match GetPlugin (Name info) pm with
         | None => sb
         | Some plugin => writePluginInfo host sb info (GetMetadata plugin)
         end)
      (ListPlugins order pm) sb
    = sb +:+ concatenated (map (listed host pm) order).
Proof.
  induction 1 as [|[name plugin] order Hhere _ IH]; intros sb; cbn [ListPlugins map fold_left].
  - cbn. now rewrite append_empty_r.
  - cbn [fst snd Name] in *. rewrite Hhere. unfold ListPlugins in IH. rewrite IH.
    rewrite writePluginInfo_appends, append_assoc. reflexivity.
Qed.

Lemma prefix_append (prefix rest : string) : String.prefix prefix (prefix +:+ rest) = true.
Proof.
  induction prefix as [|a prefix IH]; [now destruct rest|].
  change (String.prefix (String a prefix) (String a (prefix +:+ rest)) = true).
  cbn [String.prefix].
  destruct (Ascii.ascii_dec a a) as [_|Hne]; [exact IH|now destruct Hne].
Qed.

Lemma substring_all (s : string) : substring 0 (String.length s) s = s.
Proof. induction s as [|a s IH]; cbn; [reflexivity|now rewrite IH]. Qed.

Lemma length_append (s1 s2 : string) :
  String.length (s1 +:+ s2) = (String.length s1 + String.length s2)%nat.
Proof.
  induction s1 as [|a s1 IH]; [reflexivity|].
  change (S (String.length (s1 +:+ s2)) = S (String.length s1 + String.length s2)).
  now rewrite IH.
Qed.

Lemma substring_append (prefix rest : string) :
  substring (String.length prefix) (String.length rest) (prefix +:+ rest) = rest.
Proof.
  induction prefix as [|a prefix IH]; [apply substring_all|].
  change (substring (S (String.length prefix)) (String.length rest)
            (String a (prefix +:+ rest)) = rest).
  exact IH.
Qed.

Lemma strings_TrimPrefix_append (prefix rest : string) :
  strings_TrimPrefix (prefix +:+ rest) prefix = rest.
Proof.
  unfold strings_TrimPrefix, strings_HasPrefix. rewrite prefix_append, length_append.
  replace (String.length prefix + String.length rest - String.length prefix)%nat
    with (String.length rest) by lia.
  apply substring_append.
Qed.

(** X22. The command [list] always ends the process with 0, and what it
    writes goes to standard error: [No plugins loaded.] for an empty
    registry, and otherwise the title followed by one block for every
    registered extension, in the order of [ListPlugins]; no extension is
    skipped.  In a block, a path that starts with the text of the home
    directory is shown with [~] in its place, whether or not the
    directory name ends there. *)
Theorem handleListCommand_lists (host : Host) (pm : PluginManager)
    (order : list (string * IPlugin)) :
  ranges pm order ->
  let listing :=
    match order with
    | [] => "No plugins loaded." +:+ LF
    | _ => "Loaded plugins:" +:+ LF +:+ concatenated (map (listed host pm) order)
    end in
  listPlugins host order pm = NewSuccess listing
  /\ handleListCommand host order pm = ([Fprintf Stderr listing], OsExit ExitCodeSuccess)
  /\ forall homeDir rest,
       os_UserHomeDir host = inr homeDir ->
       displayPath host (homeDir +:+ rest) = "~" +:+ rest.
Proof.
  intros Horder listing.
  assert (Hlist : listPlugins host order pm = NewSuccess listing).
  { subst listing. unfold listPlugins. destruct order as [|entry order]; [reflexivity|].
    remember (entry :: order) as entries eqn:Hentries.
    assert (Hlen : (length (ListPlugins entries pm) =? 0)%nat = false)
      by (subst entries; reflexivity).
    rewrite Hlen. f_equal. rewrite listPlugins_fold; [now rewrite append_assoc|].
    apply Forall_forall. intros [name plugin] Hin. unfold GetPlugin. cbn [fst snd].
    unfold ranges in Horder. rewrite Horder in Hin. now apply elem_of_map_to_list in Hin. }
  split; [exact Hlist|]. split.
  - unfold handleListCommand. rewrite Hlist, ExitWithMessage_payload.
    subst listing. destruct order; reflexivity.
  - intros homeDir rest Hhome. unfold displayPath. rewrite Hhome.
    unfold strings_HasPrefix at 1. now rewrite prefix_append, strings_TrimPrefix_append.
Qed.

Lemma handleListCommand_lists_witness :
  handleListCommand sampleHost bothLoadedOrder bothLoaded
  = ([Fprintf Stderr
        (concatenated
           (map (fun line => line +:+ LF)
              [ "Loaded plugins:";
                "";
                "• Plugin: gocheck.so (~/.claude/hooks/gocheck.so)";
                "  Description: syntax check of edited go files";
                "  Matchers:";
                "    PostToolUse: Write|Edit|MultiEdit";
                "";
                "• Plugin: env.so (~/.claude/hooks/env.so)";
                "  Description: no reading of .env files";
                "  Matchers:";
                "    PreToolUse: Read|Write|Edit|MultiEdit" ]))],
     OsExit ExitCodeSuccess)
  /\ displayPath sampleHost "/home/user2/x.so" = "~ser2/x.so".
Proof.
  destruct (handleListCommand_lists sampleHost bothLoaded bothLoadedOrder
              bothLoadedOrder_ranges) as (_ & Hrun & Hhome).
  split.
  - rewrite Hrun. vm_compute. reflexivity.
  - exact (Hhome "/home/u" "ser2/x.so" eq_refl).
Defined.
